(** * repo_head_clone: segmented download of a repository head and its digests

    A shallow embedding of [main.py].  The coroutines of the program become
    state-passing functions over a [world] (the file system under
    [TEMP_DIR], the logger's records and the sequence of calls made to the
    outside), running in an error monad whose [Raise] is a Python exception.
    The remote server, [os.makedirs] and the directory are an oracle, the
    [remote] record, which the program cannot change.

    The constants module ([BLOCK_SIZE], [NUM_OF_BLOCKS], [REPO_URL],
    [TEMP_DIR]) is not part of the sources at hand, so the four constants
    are the variables of the section that holds the program.

    The tasks that [download_chunks] creates are run one after the other,
    in the order of their creation: they write to files of their own, and
    nothing proved here depends on how they interleave.

    The definitions come first; the theorems follow, grouped by the part
    of the program they are about. *)

From Stdlib Require Import ZArith List String Ascii Bool Lia.
From Stdlib Require Import Strings.Byte.
From Stdlib Require Import DecimalString.
From Stdlib Require Decimal DecimalPos DecimalZ Finite.
Import ListNotations.
Open Scope string_scope.
Open Scope Z_scope.

(* ================================================================== *)
(** ** Python values, exceptions and results *)

(** The exception classes the program can meet.  Every one of them derives
    from [Exception]; [ClientConnectorError], [FileNotFoundError],
    [PermissionError], [IsADirectoryError] and [NotADirectoryError] derive
    from [OSError].

    A [string] stands for a Python [str] whose code points are all below
    256, one character for each code point. *)
Inductive exn_class :=
| ClientConnectorError
| ClientPayloadError
| OSError
| FileNotFoundError
| PermissionError
| IsADirectoryError
| NotADirectoryError
| KeyError
| IndexError
| ValueError
| ZeroDivisionError
| TypeError.

Record exn := mkExn { exn_cls : exn_class; exn_arg : string }.

Definition isinstance_OSError (e : exn) : bool :=
  match exn_cls e with
  | ClientConnectorError | OSError | FileNotFoundError
  | PermissionError | IsADirectoryError | NotADirectoryError => true
  | _ => false
  end.

Definition isinstance_ClientConnectorError (e : exn) : bool :=
  match exn_cls e with
  | ClientConnectorError => true
  | _ => false
  end.

(** [str(error)]: the argument of the exception, except for [KeyError],
    which shows the [repr] of the missing key. *)
Definition str_exn (e : exn) : string :=
  match exn_cls e with
  | KeyError => "'" ++ exn_arg e ++ "'"
  | _ => exn_arg e
  end.

Inductive result (A : Type) :=
| Ok (a : A)
| Raise (e : exn).
Arguments Ok {A} a.
Arguments Raise {A} e.

Definition string_of_Z (z : Z) : string :=
  NilZero.string_of_int (Z.to_int z).

Inductive pyval :=
| VStr (s : string)
| VInt (z : Z)
| VExn (e : exn).

Definition py_str (v : pyval) : string :=
  match v with
  | VStr s => s
  | VInt z => string_of_Z z
  | VExn e => str_exn e
  end.

(* ================================================================== *)
(** ** [str.format] *)

Module Format.

(** A template is a sequence of literal characters and replacement
    fields.  Doubled braces stand for a single literal brace.  The text of
    a field is kept whole as its name (the program's templates carry no
    conversion and no format specification). *)
Inductive piece :=
| Literal (c : ascii)
| Field (name : string).

Definition is_open (c : ascii) : bool := Ascii.eqb c "{"%char.
Definition is_close (c : ascii) : bool := Ascii.eqb c "}"%char.

Definition cons_piece (p : piece) (r : result (list piece))
  : result (list piece) :=
  match r with
  | Ok ps => Ok (p :: ps)
  | Raise e => Raise e
  end.

Fixpoint snoc (s : string) (c : ascii) : string :=
  match s with
  | EmptyString => String c EmptyString
  | String d s' => String d (snoc s' c)
  end.

(** [scan s field] reads the template [s]; [field] is the text of the
    replacement field being read, when inside braces. *)
Fixpoint scan (s : string) (field : option string) : result (list piece) :=
  match s with
  | EmptyString =>
      match field with
      | None => Ok []
      | Some _ =>
          Raise (mkExn ValueError "expected '}' before end of string")
      end
  | String c rest =>
      match field with
      | Some name =>
          if is_close c then cons_piece (Field name) (scan rest None)
          else scan rest (Some (snoc name c))
      | None =>
          if is_open c then
            match rest with
            | String d rest' =>
                if is_open d then cons_piece (Literal d) (scan rest' None)
                else scan rest (Some EmptyString)
            | EmptyString =>
                Raise (mkExn ValueError
                         "Single '{' encountered in format string")
            end
          else if is_close c then
            match rest with
            | String d rest' =>
                if is_close d then cons_piece (Literal d) (scan rest' None)
                else Raise (mkExn ValueError
                              "Single '}' encountered in format string")
            | EmptyString =>
                Raise (mkExn ValueError
                         "Single '}' encountered in format string")
            end
          else cons_piece (Literal c) (scan rest None)
      end
  end.

Definition digit_of (c : ascii) : option nat :=
  let n := nat_of_ascii c in
  if andb (Nat.leb 48 n) (Nat.leb n 57) then Some (n - 48)%nat else None.

(** The index a field name denotes when it is all digits. *)
Fixpoint index_of (s : string) (acc : nat) : option nat :=
  match s with
  | EmptyString => Some acc
  | String c s' =>
      match digit_of c with
      | Some d => index_of s' (10 * acc + d)%nat
      | None => None
      end
  end.

Fixpoint assoc (k : string) (kw : list (string * pyval)) : option pyval :=
  match kw with
  | [] => None
  | (k', v) :: kw' => if String.eqb k k' then Some v else assoc k kw'
  end.

Definition positional (i : nat) (args : list pyval) : result pyval :=
  match nth_error args i with
  | Some v => Ok v
  | None =>
      Raise (mkExn IndexError
               ("Replacement index " ++ string_of_Z (Z.of_nat i)
                ++ " out of range for positional args tuple"))
  end.

(** The value a field stands for: an empty name takes the next positional
    argument, digits an explicit position, anything else a keyword; a
    keyword that was not passed raises [KeyError]. *)
Definition field_value (name : string) (auto : nat)
           (args : list pyval) (kwargs : list (string * pyval))
  : result pyval :=
  match name with
  | EmptyString => positional auto args
  | _ =>
      match index_of name 0%nat with
      | Some i => positional i args
      | None =>
          match assoc name kwargs with
          | Some v => Ok v
          | None => Raise (mkExn KeyError name)
          end
      end
  end.

Definition next_auto (name : string) (auto : nat) : nat :=
  match name with
  | EmptyString => S auto
  | _ => auto
  end.

Fixpoint render (ps : list piece) (auto : nat)
         (args : list pyval) (kwargs : list (string * pyval))
  : result string :=
  match ps with
  | [] => Ok EmptyString
  | Literal c :: ps' =>
      match render ps' auto args kwargs with
      | Ok s => Ok (String c s)
      | Raise e => Raise e
      end
  | Field name :: ps' =>
      match field_value name auto args kwargs with
      | Raise e => Raise e
      | Ok v =>
          match render ps' (next_auto name auto) args kwargs with
          | Ok s => Ok (py_str v ++ s)
          | Raise e => Raise e
          end
      end
  end.

(** [template.format] applied to positional and keyword arguments. *)
Definition format (template : string)
           (args : list pyval) (kwargs : list (string * pyval))
  : result string :=
  match scan template None with
  | Raise e => Raise e
  | Ok ps => render ps 0%nat args kwargs
  end.

End Format.

(* ================================================================== *)
(** ** [hashlib.sha256] *)

Module Sha256.

Definition mask32 : Z := 0xffffffff.
Definition add32 (x y : Z) : Z := Z.land (x + y) mask32.
Definition rotr (n x : Z) : Z :=
  Z.lor (Z.shiftr x n) (Z.land (Z.shiftl x (32 - n)) mask32).

Definition Ch (x y z : Z) : Z :=
  Z.lxor (Z.land x y) (Z.land (Z.lxor x mask32) z).
Definition Maj (x y z : Z) : Z :=
  Z.lxor (Z.lxor (Z.land x y) (Z.land x z)) (Z.land y z).
Definition Sigma0 (x : Z) : Z :=
  Z.lxor (Z.lxor (rotr 2 x) (rotr 13 x)) (rotr 22 x).
Definition Sigma1 (x : Z) : Z :=
  Z.lxor (Z.lxor (rotr 6 x) (rotr 11 x)) (rotr 25 x).
Definition sigma0 (x : Z) : Z :=
  Z.lxor (Z.lxor (rotr 7 x) (rotr 18 x)) (Z.shiftr x 3).
Definition sigma1 (x : Z) : Z :=
  Z.lxor (Z.lxor (rotr 17 x) (rotr 19 x)) (Z.shiftr x 10).

(** The first [count] primes, by trial division. *)
Definition is_prime (n : nat) : bool :=
  forallb (fun d => negb (Nat.eqb (Nat.modulo n d) 0)) (seq 2 (n - 2)).

Definition primes (count : nat) : list Z :=
  map Z.of_nat (firstn count (filter is_prime (seq 2 400))).

(** The integer part of the cube root, one bit at a time from bit
    [bits - 1] down. *)
Fixpoint cube_root_bits (bits : nat) (n root : Z) : Z :=
  match bits with
  | O => root
  | S bits' =>
      let candidate := root + Z.shiftl 1 (Z.of_nat bits') in
      cube_root_bits bits' n
        (if candidate * candidate * candidate <=? n then candidate else root)
  end.

(** The first 32 bits of the fractional part of the cube root, and of the
    square root, of an integer. *)
Definition cube_root_fraction (p : Z) : Z :=
  Z.land (cube_root_bits 40 (Z.shiftl p 96) 0) mask32.

Definition square_root_fraction (p : Z) : Z :=
  Z.land (Z.sqrt (Z.shiftl p 64)) mask32.

(** The round constants come from the cube roots of the first 64 primes. *)
Definition K : list Z :=
  Eval vm_compute in map cube_root_fraction (primes 64).

Record state := mkState { sa : Z; sb : Z; sc : Z; sd : Z;
                          se : Z; sf : Z; sg : Z; sh : Z }.

(** The initial state comes from the square roots of the first 8 primes. *)
Definition initial : state :=
  Eval vm_compute in
    match map square_root_fraction (primes 8) with
    | [a; b; c; d; e; f; g; h] => mkState a b c d e f g h
    | _ => mkState 0 0 0 0 0 0 0 0
    end.

(** The message followed by the byte 0x80, zero bytes up to 56 modulo 64,
    and the length of the message in bits on eight bytes, big end first. *)
Definition be_bytes (count : nat) (x : Z) : list Z :=
  map (fun i => Z.land (Z.shiftr x (8 * Z.of_nat i)) 0xff)
      (rev (seq 0 count)).

Definition pad (msg : list byte) : list Z :=
  let len := Z.of_nat (List.length msg) in
  let zeros := Z.to_nat ((55 - len) mod 64) in
  (map (fun b => Z.of_N (Byte.to_N b)) msg
       ++ [0x80] ++ repeat 0 zeros ++ be_bytes 8 (8 * len))%list.

Definition be_word (bs : list Z) : Z :=
  fold_left (fun acc b => Z.lor (Z.shiftl acc 8) b) bs 0.

Fixpoint words (count : nat) (bs : list Z) : list Z :=
  match count with
  | O => []
  | S count' => be_word (firstn 4 bs) :: words count' (skipn 4 bs)
  end.

(** The message schedule, latest word first: [extend n ws] adds [n] words
    to the reversed schedule [ws]. *)
Fixpoint extend (n : nat) (ws : list Z) : list Z :=
  match n with
  | O => ws
  | S n' =>
      let w := add32 (add32 (sigma1 (nth 1 ws 0)) (nth 6 ws 0))
                     (add32 (sigma0 (nth 14 ws 0)) (nth 15 ws 0)) in
      extend n' (w :: ws)
  end.

Definition schedule (block : list Z) : list Z :=
  rev (extend 48 (rev (words 16 block))).

Definition round (s : state) (kw : Z * Z) : state :=
  let (k, w) := kw in
  let t1 := add32 (add32 (add32 (sh s) (Sigma1 (se s)))
                         (add32 (Ch (se s) (sf s) (sg s)) k)) w in
  let t2 := add32 (Sigma0 (sa s)) (Maj (sa s) (sb s) (sc s)) in
  mkState (add32 t1 t2) (sa s) (sb s) (sc s)
          (add32 (sd s) t1) (se s) (sf s) (sg s).

Definition compress (s : state) (block : list Z) : state :=
  let r := fold_left round (combine K (schedule block)) s in
  mkState (add32 (sa s) (sa r)) (add32 (sb s) (sb r))
          (add32 (sc s) (sc r)) (add32 (sd s) (sd r))
          (add32 (se s) (se r)) (add32 (sf s) (sf r))
          (add32 (sg s) (sg r)) (add32 (sh s) (sh r)).

Fixpoint blocks (count : nat) (bs : list Z) (s : state) : state :=
  match count with
  | O => s
  | S count' => blocks count' (skipn 64 bs) (compress s (firstn 64 bs))
  end.

Definition sha256 (content : list byte) : state :=
  let bs := pad content in
  blocks (Nat.div (List.length bs) 64) bs initial.

Definition hex_digits : string := "0123456789abcdef".

Definition hex_char (x : Z) : ascii :=
  match String.get (Z.to_nat (Z.land x 15)) hex_digits with
  | Some c => c
  | None => "0"%char
  end.

Definition hex8 (x : Z) (tail : string) : string :=
  String (hex_char (Z.shiftr x 28)) (String (hex_char (Z.shiftr x 24))
 (String (hex_char (Z.shiftr x 20)) (String (hex_char (Z.shiftr x 16))
 (String (hex_char (Z.shiftr x 12)) (String (hex_char (Z.shiftr x 8))
 (String (hex_char (Z.shiftr x 4)) (String (hex_char x) tail))))))).

Definition hexdigest (s : state) : string :=
  hex8 (sa s) (hex8 (sb s) (hex8 (sc s) (hex8 (sd s)
 (hex8 (se s) (hex8 (sf s) (hex8 (sg s) (hex8 (sh s) EmptyString))))))).

Definition is_hex (c : ascii) : bool :=
  let n := nat_of_ascii c in
  orb (andb (Nat.leb 48 n) (Nat.leb n 57))
      (andb (Nat.leb 97 n) (Nat.leb n 102)).

Fixpoint all_hex (s : string) : bool :=
  match s with
  | EmptyString => true
  | String c s' => andb (is_hex c) (all_hex s')
  end.

End Sha256.

(* ================================================================== *)
(** ** [int] of a header value *)

(** The white space [int] strips from both ends of its argument: the
    code points below 256 that [str.isspace] accepts. *)
Definition is_space (c : ascii) : bool :=
  let n := nat_of_ascii c in
  orb (andb (Nat.leb 9 n) (Nat.leb n 13))
      (orb (andb (Nat.leb 28 n) (Nat.leb n 32))
           (orb (Nat.eqb n 133) (Nat.eqb n 160))).

Fixpoint lstrip (s : string) : string :=
  match s with
  | EmptyString => EmptyString
  | String c s' => if is_space c then lstrip s' else s
  end.

Fixpoint rstrip (s : string) : string :=
  match s with
  | EmptyString => EmptyString
  | String c s' =>
      match rstrip s' with
      | EmptyString => if is_space c then EmptyString
                       else String c EmptyString
      | String d r => String c (String d r)
      end
  end.

Definition strip (s : string) : string := rstrip (lstrip s).

(** The value of a run of decimal digits in which single underscores may
    stand between two digits; [after_digit] tells whether the character
    just read was a digit.  The run must start and end with a digit. *)
Fixpoint literal_value (s : string) (acc : Z) (after_digit : bool)
  : option Z :=
  match s with
  | EmptyString => if after_digit then Some acc else None
  | String c s' =>
      match Format.digit_of c with
      | Some d => literal_value s' (10 * acc + Z.of_nat d) true
      | None =>
          if andb (Ascii.eqb c "_"%char) after_digit
          then literal_value s' acc false
          else None
      end
  end.

(** An optional sign, then the digits. *)
Definition signed_literal (t : string) : option Z :=
  match t with
  | EmptyString => None
  | String c u =>
      if Ascii.eqb c "-"%char
      then option_map Z.opp (literal_value u 0 false)
      else if Ascii.eqb c "+"%char
           then literal_value u 0 false
           else literal_value t 0 false
  end.

Definition invalid_literal (s : string) : exn :=
  mkExn ValueError ("invalid literal for int() with base 10: '" ++ s ++ "'").

(** [int(v)]: an integer is returned as it is; a string is stripped of the
    white space around it and read as an optional sign followed by decimal
    digits, with single underscores allowed between digits; any other
    string raises [ValueError]. *)
Definition py_int (v : pyval) : result Z :=
  match v with
  | VInt z => Ok z
  | VStr s =>
      match signed_literal (strip s) with
      | Some n => Ok n
      | None => Raise (invalid_literal s)
      end
  | VExn _ =>
      Raise (mkExn TypeError
               "int() argument must be a string, a bytes-like object or a real number")
  end.

(** [a // b] on integers: the floor of the quotient, [ZeroDivisionError]
    when [b] is zero. *)
Definition floordiv (a b : Z) : result Z :=
  if b =? 0
  then Raise (mkExn ZeroDivisionError "integer division or modulo by zero")
  else Ok (a / b).

(** [range(n)] as a list. *)
Definition py_range (n : Z) : list Z :=
  map Z.of_nat (seq 0 (Z.to_nat n)).

(* ================================================================== *)
(** ** Paths *)

Definition starts_with_slash (s : string) : bool :=
  match s with
  | String c _ => Ascii.eqb c "/"%char
  | EmptyString => false
  end.

Fixpoint ends_with_slash (s : string) : bool :=
  match s with
  | EmptyString => false
  | String c EmptyString => Ascii.eqb c "/"%char
  | String _ s' => ends_with_slash s'
  end.

Fixpoint has_slash (s : string) : bool :=
  match s with
  | EmptyString => false
  | String c s' => orb (Ascii.eqb c "/"%char) (has_slash s')
  end.

(** [os.path.join(a, b)] on POSIX paths. *)
Definition os_path_join (a b : string) : string :=
  if starts_with_slash b then b
  else match a with
       | EmptyString => b
       | _ => if ends_with_slash a then a ++ b else a ++ "/" ++ b
       end.

Fixpoint strip_prefix (pre s : string) : option string :=
  match pre with
  | EmptyString => Some s
  | String c pre' =>
      match s with
      | String d s' => if Ascii.eqb c d then strip_prefix pre' s' else None
      | EmptyString => None
      end
  end.

(** The name under which [path] is an entry of the directory [dir], if it
    lies directly in it. *)
Definition entry_name (dir path : string) : option string :=
  match strip_prefix (os_path_join dir EmptyString) path with
  | Some (String c n) =>
      if has_slash (String c n) then None else Some (String c n)
  | _ => None
  end.

(* ================================================================== *)
(** ** The world the program runs in *)

(** What a path of the file system holds: a readable and writable regular
    file, a file whose permissions refuse access, a directory, or a link
    whose target does not exist (yet) in a directory that does. *)
Inductive node :=
| Regular (content : list byte)
| Denied
| Subdir
| Dangling.

Inductive level := ERROR | INFO.

(** The calls the program makes to its collaborators, in order. *)
Inductive event :=
| Head (url : string)
| PathExists (path : string)
| Makedirs (path : string)
| Get (url : string) (headers : list (string * string))
| OpenWrite (path : string)
| Write (path : string) (chunk : list byte)
| Listdir (path : string)
| OpenRead (path : string).

Record world := mkWorld {
  dirs : list string;
  files : list (string * node);
  log : list (level * string);
  trace : list event
}.

(** A response: its headers, and what [content.iter_chunked(n)] yields, a
    sequence of chunks that may end in a transport error. *)
Record response := mkResponse {
  headers : list (string * string);
  iter_chunked : Z -> list (list byte) * option exn
}.

(** What lies outside the program: the server behind the client session,
    and whether [os.makedirs] is refused. *)
Record remote := mkRemote {
  http_head : string -> result response;
  http_get : string -> list (string * string) -> result response;
  makedirs_error : string -> option exn
}.

Definition M (A : Type) : Type := world -> result A * world.

Definition ret {A} (a : A) : M A := fun w => (Ok a, w).

Definition raise {A} (e : exn) : M A := fun w => (Raise e, w).

Definition lift {A} (r : result A) : M A := fun w => (r, w).

Definition bind {A B} (m : M A) (k : A -> M B) : M B :=
  fun w =>
    match m w with
    | (Ok a, w') => k a w'
    | (Raise e, w') => (Raise e, w')
    end.

(** [try: body  except C as error: handler], where [catches] tells the
    instances of [C]. *)
Definition try_except {A} (body : M A) (catches : exn -> bool)
           (handler : exn -> M A) : M A :=
  fun w =>
    match body w with
    | (Ok a, w') => (Ok a, w')
    | (Raise e, w') => if catches e then handler e w' else (Raise e, w')
    end.

Definition isinstance_Exception (e : exn) : bool := true.

Declare Scope monad_scope.
Delimit Scope monad_scope with monad.
Notation "x <- m ;; k" := (bind m (fun x => k))
  (at level 61, m at next level, right associativity) : monad_scope.
Notation "m ;; k" := (bind m (fun _ => k))
  (at level 61, right associativity) : monad_scope.
Open Scope monad_scope.

Definition add_event (ev : event) (w : world) : world :=
  mkWorld (dirs w) (files w) (log w) (trace w ++ [ev]).

Definition log_error (msg : string) (w : world) : world :=
  mkWorld (dirs w) (files w) (log w ++ [(ERROR, msg)]) (trace w).

Definition log_info (msg : string) (w : world) : world :=
  mkWorld (dirs w) (files w) (log w ++ [(INFO, msg)]) (trace w).

Definition add_dir (path : string) (w : world) : world :=
  mkWorld (path :: dirs w) (files w) (log w) (trace w).

Definition emit (ev : event) : M unit := fun w => (Ok tt, add_event ev w).

Definition logger_error (msg : string) : M unit :=
  fun w => (Ok tt, log_error msg w).

Definition logger_info (msg : string) : M unit :=
  fun w => (Ok tt, log_info msg w).

Fixpoint find_node (path : string) (fs : list (string * node))
  : option node :=
  match fs with
  | [] => None
  | (p, n) :: fs' => if String.eqb path p then Some n else find_node path fs'
  end.

Fixpoint set_node (path : string) (n : node) (fs : list (string * node))
  : list (string * node) :=
  match fs with
  | [] => [(path, n)]
  | (p, m) :: fs' =>
      if String.eqb path p then (p, n) :: fs'
      else (p, m) :: set_node path n fs'
  end.

Definition with_files (fs : list (string * node)) (w : world) : world :=
  mkWorld (dirs w) fs (log w) (trace w).

(** The paths that hold a directory node. *)
Definition subdirs (fs : list (string * node)) : list string :=
  flat_map (fun pn => match snd pn with
                      | Subdir => [fst pn]
                      | _ => []
                      end) fs.

(** The directories of a world: those it lists, and the paths that hold a
    directory node. *)
Definition directories (w : world) : list string :=
  dirs w ++ subdirs (files w).

Definition is_dir (path : string) (w : world) : bool :=
  existsb (String.eqb path) (directories w).

(** Whether a path lies directly in a directory of the world. *)
Definition in_some_dir (path : string) (w : world) : bool :=
  existsb (fun d => match entry_name d path with
                    | Some _ => true
                    | None => false
                    end) (directories w).

(** Whether a path lies below another one. *)
Definition under (ancestor path : string) : bool :=
  match strip_prefix (os_path_join ancestor EmptyString) path with
  | Some (String _ _) => true
  | _ => false
  end.

(** Whether a path lies below a path that holds a file. *)
Definition below_a_file (path : string) (w : world) : bool :=
  existsb (fun pn => match snd pn with
                     | Regular _ | Denied => under (fst pn) path
                     | _ => false
                     end) (files w).

(** The errors of [open] and [os.listdir]. *)
Definition no_such_file (path : string) : exn :=
  mkExn FileNotFoundError
        ("[Errno 2] No such file or directory: '" ++ path ++ "'").

Definition permission_denied (path : string) : exn :=
  mkExn PermissionError ("[Errno 13] Permission denied: '" ++ path ++ "'").

Definition is_a_directory (path : string) : exn :=
  mkExn IsADirectoryError ("[Errno 21] Is a directory: '" ++ path ++ "'").

Definition not_a_directory (path : string) : exn :=
  mkExn NotADirectoryError ("[Errno 20] Not a directory: '" ++ path ++ "'").

(** The error of a path that holds nothing: one of its ancestors is a file,
    or it is simply missing. *)
Definition missing (path : string) (w : world) : exn :=
  if below_a_file path w then not_a_directory path else no_such_file path.

(** Whether a path names something that exists: a directory, or a file
    other than a link whose target is gone. *)
Definition path_exists (path : string) (w : world) : bool :=
  orb (is_dir path w)
      (match find_node path (files w) with
       | Some Dangling | None => false
       | Some _ => true
       end).

(** [os.path.exists]. *)
Definition os_path_exists (path : string) : M bool :=
  emit (PathExists path) ;;
  fun w => (Ok (path_exists path w), w).

(** [os.makedirs]: the directory exists afterwards unless the call is
    refused. *)
Definition os_makedirs (net : remote) (path : string) : M unit :=
  emit (Makedirs path) ;;
  fun w =>
    match makedirs_error net path with
    | Some e => (Raise e, w)
    | None => (Ok tt, add_dir path w)
    end.

(** The names of the entries of a directory, in the order the file system
    keeps them. *)
Definition dir_entries (path : string) (w : world) : list string :=
  flat_map (fun pn => match entry_name path (fst pn) with
                      | Some name => [name]
                      | None => []
                      end) (files w).

(** The error of [os.listdir] on a path that is not a directory. *)
Definition listdir_error (path : string) (w : world) : exn :=
  match find_node path (files w) with
  | Some (Regular _) | Some Denied => not_a_directory path
  | Some Dangling => no_such_file path
  | Some Subdir | None => missing path w
  end.

(** [os.listdir]. *)
Definition os_listdir (path : string) : M (list string) :=
  emit (Listdir path) ;;
  fun w =>
    if is_dir path w then (Ok (dir_entries path w), w)
    else (Raise (listdir_error path w), w).

(** [open(path, "rb")]; the handle is the path. *)
Definition open_rb (path : string) : M string :=
  emit (OpenRead path) ;;
  fun w =>
    match find_node path (files w) with
    | Some (Regular _) => (Ok path, w)
    | Some Denied => (Raise (permission_denied path), w)
    | Some Subdir => (Raise (is_a_directory path), w)
    | Some Dangling => (Raise (no_such_file path), w)
    | None => (Raise (missing path w), w)
    end.

(** [file.read()]. *)
Definition file_read (file : string) : M (list byte) :=
  fun w =>
    match find_node file (files w) with
    | Some (Regular content) => (Ok content, w)
    | _ => (Raise (mkExn OSError "[Errno 5] Input/output error"), w)
    end.

(** [open(path, "wb")]: the file is created, or emptied when it exists; a
    link whose target does not exist is followed and its target created, so
    that the path then holds an empty file. *)
Definition open_wb (path : string) : M string :=
  emit (OpenWrite path) ;;
  fun w =>
    if in_some_dir path w then
      match find_node path (files w) with
      | Some Denied => (Raise (permission_denied path), w)
      | Some Subdir => (Raise (is_a_directory path), w)
      | Some (Regular _) | Some Dangling | None =>
          (Ok path, with_files (set_node path (Regular []) (files w)) w)
      end
    else (Raise (missing path w), w).

(** [file.write(chunk)]. *)
Definition file_write (file : string) (chunk : list byte) : M unit :=
  emit (Write file chunk) ;;
  fun w =>
    match find_node file (files w) with
    | Some (Regular content) =>
        (Ok tt,
         with_files (set_node file (Regular (content ++ chunk)) (files w)) w)
    | _ => (Raise (mkExn OSError "[Errno 5] Input/output error"), w)
    end.

Definition session_head (net : remote) (url : string) : M response :=
  emit (Head url) ;; lift (http_head net url).

Definition session_get (net : remote) (url : string)
           (hdrs : list (string * string)) : M response :=
  emit (Get url hdrs) ;; lift (http_get net url hdrs).

(** The names of headers, which are ASCII, are compared without regard to
    the case of their letters. *)
Definition ascii_lower (c : ascii) : ascii :=
  let n := nat_of_ascii c in
  if andb (Nat.leb 65 n) (Nat.leb n 90) then ascii_of_nat (n + 32) else c.

Fixpoint lower (s : string) : string :=
  match s with
  | EmptyString => EmptyString
  | String c s' => String (ascii_lower c) (lower s')
  end.

Definition header_name_eqb (a b : string) : bool :=
  String.eqb (lower a) (lower b).

(** [response.headers.get(key, default)]: the value of the first header
    of that name, whatever the case of its letters. *)
Fixpoint headers_get (key : string) (default : pyval)
         (hdrs : list (string * string)) : pyval :=
  match hdrs with
  | [] => default
  | (k, v) :: hdrs' =>
      if header_name_eqb key k then VStr v
      else headers_get key default hdrs'
  end.

(** [asyncio.gather]: every task runs to its end, in the order the tasks
    were created; the result is the list of their values, or the first
    exception one of them raised. *)
Fixpoint run_tasks {A} (tasks : list (M A)) (w : world)
  : list (result A) * world :=
  match tasks with
  | [] => ([], w)
  | t :: tasks' =>
      let (r, w1) := t w in
      let (rs, w2) := run_tasks tasks' w1 in
      (r :: rs, w2)
  end.

Fixpoint collect {A} (rs : list (result A)) : result (list A) :=
  match rs with
  | [] => Ok []
  | Raise e :: _ => Raise e
  | Ok a :: rs' =>
      match collect rs' with
      | Ok l => Ok (a :: l)
      | Raise e => Raise e
      end
  end.

Definition gather {A} (tasks : list (M A)) : M (list A) :=
  fun w => let (rs, w') := run_tasks tasks w in (collect rs, w').

(* ================================================================== *)
(** ** The program *)

Section Main.

Variables BLOCK_SIZE NUM_OF_BLOCKS : Z.
Variables REPO_URL TEMP_DIR : string.

(** The client session, and through it the server. *)
Variable session : remote.

Definition get_content_length : M (option Z) :=
  try_except
    (response <- session_head session REPO_URL ;;
     content_length <-
       lift (py_int (headers_get "Content-Length" (VInt 0)
                                 (headers response))) ;;
     ret (Some content_length))
    isinstance_ClientConnectorError
    (fun error =>
       msg <- lift (Format.format "Failed to connect to server: {}"
                                  [VExn error] []) ;;
       logger_error msg ;;
       ret None).

Definition create_temp_dir : M bool :=
  present <- os_path_exists TEMP_DIR ;;
  if negb present then
    try_except
      (os_makedirs session TEMP_DIR ;; ret true)
      isinstance_OSError
      (fun error =>
         msg <- lift (Format.format "Failed to create directory: {}"
                                    [VExn error] []) ;;
         logger_error msg ;;
         ret false)
  else ret true.

(** The body of [async for chunk in ...: file.write(chunk)]. *)
Fixpoint write_chunks (file : string) (chunks : list (list byte))
         (failure : option exn) : M unit :=
  match chunks with
  | [] => match failure with
          | Some e => raise e
          | None => ret tt
          end
  | chunk :: chunks' =>
      file_write file chunk ;; write_chunks file chunks' failure
  end.

(** The [try] block of [download_chunk]. *)
Definition download_chunk_try (hdrs : list (string * string))
           (start end_ : Z) (temp_dir : string) : M unit :=
  response <- session_get session REPO_URL hdrs ;;
  name <- lift (Format.format "temp_{}_{}" [VInt start; VInt end_] []) ;;
  file <- open_wb (os_path_join temp_dir name) ;;
  let (chunks, failure) := iter_chunked response BLOCK_SIZE in
  write_chunks file chunks failure.

Definition download_chunk (start end_ : Z) (temp_dir : string) : M unit :=
  range <- lift (Format.format "bytes={}-{}" [VInt start; VInt end_] []) ;;
  let hdrs := [("Range", range)] in
  try_except
    (download_chunk_try hdrs start end_ temp_dir)
    isinstance_Exception
    (fun error =>
       msg <- lift (Format.format "Failed to download chunk: {}"
                                  [VExn error] []) ;;
       logger_error msg ;;
       ret tt).

(** The bounds the loop of [download_chunks] computes at index [i]. *)
Definition chunk_bounds (content_length chunk_size i : Z) : Z * Z :=
  let start := i * chunk_size in
  let end_ := start + chunk_size - 1 in
  let end_ := if i =? 2 then content_length else end_ in
  (start, end_).

(** The ranges of one run of that loop, in the order of the indices. *)
Definition planned_ranges (content_length : Z) : list (Z * Z) :=
  map (chunk_bounds content_length (content_length / NUM_OF_BLOCKS))
      (py_range NUM_OF_BLOCKS).

Definition download_chunks (content_length : Z) : M bool :=
  chunk_size <- lift (floordiv content_length NUM_OF_BLOCKS) ;;
  let tasks :=
    map (fun i =>
           let (start, end_) := chunk_bounds content_length chunk_size i in
           download_chunk start end_ TEMP_DIR)
        (py_range NUM_OF_BLOCKS) in
  try_except
    (gather tasks ;; ret true)
    isinstance_Exception
    (fun error =>
       msg <- lift (Format.format "Failed to download repository: {}"
                                  [VExn error] []) ;;
       logger_error msg ;;
       ret false).

Definition download_and_hash_file (filepath : string) : M string :=
  file <- open_rb filepath ;;
  content <- file_read file ;;
  let hash_object := Sha256.sha256 content in
  ret (Sha256.hexdigest hash_object).

(** One turn of the loop of [compute_file_hashes]: [Some b] when the
    function returns [b] from inside the loop, [None] when the loop goes
    on. *)
Definition hash_one (filename : string) : M (option bool) :=
  let filepath := os_path_join TEMP_DIR filename in
  try_except
    (hash_digest <- download_and_hash_file filepath ;;
     msg <- lift (Format.format "{filename}: {hash_digest}"
                                [VStr filename; VStr hash_digest] []) ;;
     logger_info msg ;;
     ret None)
    isinstance_Exception
    (fun error =>
       msg <- lift (Format.format "Failed to hash file: {}"
                                  [VExn error] []) ;;
       logger_error msg ;;
       ret (Some false)).

Fixpoint hash_each (filenames : list string) : M bool :=
  match filenames with
  | [] => ret true
  | filename :: rest =>
      returned <- hash_one filename ;;
      match returned with
      | Some b => ret b
      | None => hash_each rest
      end
  end.

Definition compute_file_hashes : M bool :=
  filenames <- os_listdir TEMP_DIR ;;
  hash_each filenames.

Definition download_repo : M unit :=
  content_length <- get_content_length ;;
  match content_length with
  | None => ret tt
  | Some content_length =>
      prepared <- create_temp_dir ;;
      if negb prepared then ret tt
      else
        transferred <- download_chunks content_length ;;
        if negb transferred then ret tt
        else
          digested <- compute_file_hashes ;;
          if negb digested then ret tt else ret tt
  end.

End Main.

(* ================================================================== *)
(** ** Stages of a session *)

Inductive stage := DiscoverSize | PrepareDestination | Transfer | Digest.

Definition stage_of (ev : event) : stage :=
  match ev with
  | Head _ => DiscoverSize
  | PathExists _ | Makedirs _ => PrepareDestination
  | Get _ _ | OpenWrite _ | Write _ _ => Transfer
  | Listdir _ | OpenRead _ => Digest
  end.

Definition stage_index (s : stage) : nat :=
  match s with
  | DiscoverSize => 0
  | PrepareDestination => 1
  | Transfer => 2
  | Digest => 3
  end.

Definition stage_eqb (s t : stage) : bool :=
  Nat.eqb (stage_index s) (stage_index t).

(** Whether a stage made any call in the trace. *)
Definition entered (s : stage) (tr : list event) : bool :=
  existsb (fun ev => stage_eqb (stage_of ev) s) tr.

(** The range requests of a trace, as the values of their [Range] header. *)
Definition requested_ranges (tr : list event) : list string :=
  flat_map (fun ev => match ev with
                      | Get _ hdrs => map snd hdrs
                      | _ => []
                      end) tr.

Definition errors (w : world) : list string :=
  flat_map (fun r => match fst r with
                     | ERROR => [snd r]
                     | INFO => []
                     end) (log w).

Definition infos (w : world) : list string :=
  flat_map (fun r => match fst r with
                     | INFO => [snd r]
                     | ERROR => []
                     end) (log w).

Definition empty_world : world := mkWorld [] [] [] [].

(* ================================================================== *)
(** ** What the theorems observe *)

Open Scope list_scope.

(** [keeps f m]: running [m] leaves the observation [f] of the world as it
    was. *)
Definition keeps {A B} (f : world -> B) (m : M A) : Prop :=
  forall w, f (snd (m w)) = f w.

(** [emits P m]: running [m] only adds calls to the trace, and each of them
    satisfies [P]. *)
Definition emits {A} (P : event -> Prop) (m : M A) : Prop :=
  forall w, exists evs, trace (snd (m w)) = trace w ++ evs /\ Forall P evs.

Definition of_stage (s : stage) (ev : event) : Prop := stage_of ev = s.

Definition is_write (ev : event) : Prop :=
  match ev with
  | OpenWrite _ | Write _ _ => True
  | _ => False
  end.

(** Whether [open(path, "rb")] succeeds. *)
Definition readable (path : string) (w : world) : bool :=
  match find_node path (files w) with
  | Some (Regular _) => true
  | _ => false
  end.

(** The files a trace opens for reading. *)
Definition opened (tr : list event) : list string :=
  flat_map (fun ev => match ev with
                      | OpenRead path => [path]
                      | _ => []
                      end) tr.

(** The exception a turn of the loop of [compute_file_hashes] ends in. *)
Definition hash_failure (filepath : string) (w : world) : exn :=
  match find_node filepath (files w) with
  | Some (Regular _) => mkExn KeyError "filename"
  | Some Denied => permission_denied filepath
  | Some Subdir => is_a_directory filepath
  | Some Dangling => no_such_file filepath
  | None => missing filepath w
  end.

Definition header_present (key : string) (hdrs : list (string * string))
  : bool :=
  existsb (fun kv => header_name_eqb key (fst kv)) hdrs.

Definition range_header (start end_ : Z) : string :=
  ("bytes=" ++ string_of_Z start ++ "-" ++ string_of_Z end_)%string.

Definition artifact_name (start end_ : Z) : string :=
  ("temp_" ++ string_of_Z start ++ "_" ++ string_of_Z end_)%string.

(** Offsets are inclusive at both ends, as in a [Range] header. *)
Definition in_range (x : Z) (r : Z * Z) : Prop := fst r <= x <= snd r.

Definition overlap (r s : Z * Z) : Prop :=
  exists x, in_range x r /\ in_range x s.

Definition pairwise_disjoint (rs : list (Z * Z)) : Prop :=
  forall i j r s,
    (i < j)%nat -> nth_error rs i = Some r -> nth_error rs j = Some s ->
    ~ overlap r s.

Definition covers (rs : list (Z * Z)) (total : Z) : Prop :=
  forall x, 0 <= x < total -> exists r, In r rs /\ in_range x r.

(** The end of the segment at index [i], when there is one. *)
Definition end_at (rs : list (Z * Z)) (i : nat) : option Z :=
  option_map snd (nth_error rs i).

(** The paths of a world that hold a directory node. *)
Definition subdirs_of (w : world) : list string := subdirs (files w).

(** The path of the artifact of a range in a directory. *)
Definition artifact_path (temp_dir : string) (start end_ : Z) : string :=
  os_path_join temp_dir (artifact_name start end_).

(** Whether [open(path, "wb")] succeeds: the path lies in a directory that
    exists and holds nothing, a regular file, or a link whose target can be
    created. *)
Definition writable (path : string) (w : world) : bool :=
  andb (in_some_dir path w)
       (match find_node path (files w) with
        | None | Some (Regular _) | Some Dangling => true
        | Some _ => false
        end).

(** What a path holds. *)
Definition node_at (path : string) (w : world) : option node :=
  find_node path (files w).

(** Whether every character of a string satisfies a test. *)
Fixpoint string_forall (test : ascii -> bool) (s : string) : bool :=
  match s with
  | EmptyString => true
  | String c s' => andb (test c) (string_forall test s')
  end.

(** The characters of a decimal numeral: the digits and the minus sign. *)
Definition numeral_char (c : ascii) : bool :=
  orb (Ascii.eqb c "-"%char)
      (match Format.digit_of c with
       | Some _ => true
       | None => false
       end).

(* ================================================================== *)
(** ** Particular servers and worlds *)

Definition repo_url : string := "https://example.org/repo/HEAD.zip".

Definition connection_refused : exn :=
  mkExn ClientConnectorError "Cannot connect to host example.org:443".

Definition plain_response (hdrs : list (string * string))
           (chunks : list (list byte)) : response :=
  mkResponse hdrs (fun _ => (chunks, None)).

(** A server that cannot be reached. *)
Definition unreachable_server : remote :=
  mkRemote (fun _ => Raise connection_refused)
           (fun _ _ => Raise connection_refused)
           (fun _ => None).

(** A server whose answers carry no [Content-Length]. *)
Definition lengthless_response : response :=
  plain_response [("Content-Type", "application/zip")] [].

Definition lengthless_server : remote :=
  mkRemote (fun _ => Ok lengthless_response)
           (fun _ _ => Ok (plain_response [] [[x50; x4b]%byte]))
           (fun _ => None).

(** A server of 3000 bytes that refuses the connection for the range
    1000-1999 and serves the other ranges. *)
Definition asks_for (range : string) (hdrs : list (string * string)) : bool :=
  match hdrs with
  | [(_, value)] => String.eqb value range
  | _ => false
  end.

Definition flaky_server : remote :=
  mkRemote (fun _ => Ok (plain_response [("Content-Length", "3000")] []))
           (fun _ hdrs =>
              if asks_for "bytes=1000-1999" hdrs
              then Raise connection_refused
              else Ok (plain_response [] [[x50; x4b]%byte; [x03]%byte]))
           (fun _ => None).

Definition prepared_world : world := mkWorld ["temp"] [] [] [].

Definition mixed_directory : world :=
  mkWorld ["temp"]
          [ ("temp/temp_0_999", Regular [x61; x62; x63]%byte);
            ("temp/temp_1000_1999", Denied);
            ("temp/temp_2000_3000", Regular [x61]%byte) ]
          [] [].

Definition readable_directory : world :=
  mkWorld ["temp"]
          [ ("temp/temp_0_999", Regular [x61; x62; x63]%byte) ]
          [] [].

(** A server that answers every range request with the same two bytes. *)
Definition steady_server : remote :=
  mkRemote (fun _ => Ok (plain_response [("Content-Length", "3000")] []))
           (fun _ _ => Ok (plain_response [] [[x50; x4b]%byte]))
           (fun _ => None).

(** A server whose bodies break off after two bytes. *)
Definition payload_error : exn :=
  mkExn ClientPayloadError "Response payload is not completed".

Definition breaking_response : response :=
  mkResponse [] (fun _ => ([[x50; x4b]%byte], Some payload_error)).

Definition breaking_server : remote :=
  mkRemote (fun _ => Ok (plain_response [("Content-Length", "3000")] []))
           (fun _ _ => Ok breaking_response)
           (fun _ => None).

(** A server whose [Content-Length] is not a number, and one whose answer
    to the HEAD request breaks off. *)
Definition garbled_response : response :=
  plain_response [("Content-Length", "abc")] [].

Definition garbled_server : remote :=
  mkRemote (fun _ => Ok garbled_response)
           (fun _ _ => Ok (plain_response [] []))
           (fun _ => None).

Definition broken_head_server : remote :=
  mkRemote (fun _ => Raise payload_error)
           (fun _ _ => Ok (plain_response [] []))
           (fun _ => None).

(** A reachable server, on a machine where no directory can be created. *)
Definition read_only_file_system : exn :=
  mkExn OSError "[Errno 30] Read-only file system: 'temp'".

Definition steady_server_read_only_disk : remote :=
  mkRemote (fun _ => Ok (plain_response [("Content-Length", "3000")] []))
           (fun _ _ => Ok (plain_response [] [[x50; x4b]%byte]))
           (fun _ => Some read_only_file_system).

(** A world in which the destination path holds a regular file. *)
Definition destination_is_a_file : world :=
  mkWorld [EmptyString] [("temp", Regular [])] [] [].

(* ================================================================== *)
(** ** The library functions on known inputs *)

Example format_positional :
  Format.format "temp_{}_{}" [VInt 2000; VInt 3000] []
  = Ok "temp_2000_3000".
Proof. reflexivity. Qed.

Example format_negative_end :
  Format.format "bytes={}-{}" [VInt 0; VInt (-1)] [] = Ok "bytes=0--1".
Proof. reflexivity. Qed.

Example format_named_without_keywords :
  Format.format "{filename}: {hash_digest}" [VStr "a"; VStr "b"] []
  = Raise (mkExn KeyError "filename").
Proof. reflexivity. Qed.

Example int_of_padded_string : py_int (VStr " 42 ") = Ok 42.
Proof. reflexivity. Qed.

Example int_of_grouped_digits : py_int (VStr "1_000") = Ok 1000.
Proof. reflexivity. Qed.

Example int_of_signed_strings :
  py_int (VStr "+7") = Ok 7 /\ py_int (VStr "-12") = Ok (-12).
Proof. split; reflexivity. Qed.

Example int_of_misplaced_underscores :
  py_int (VStr "1__000") = Raise (invalid_literal "1__000")
  /\ py_int (VStr "_1") = Raise (invalid_literal "_1")
  /\ py_int (VStr "1_") = Raise (invalid_literal "1_").
Proof. repeat split; reflexivity. Qed.

Example int_of_no_digits :
  py_int (VStr EmptyString) = Raise (invalid_literal EmptyString)
  /\ py_int (VStr "- 1") = Raise (invalid_literal "- 1")
  /\ py_int (VStr "12a") = Raise (invalid_literal "12a").
Proof. repeat split; reflexivity. Qed.

Example headers_get_ignores_case :
  headers_get "Content-Length" (VInt 0) [("content-length", "3000")]
  = VStr "3000".
Proof. reflexivity. Qed.

Example open_wb_follows_a_dangling_link :
  open_wb "temp/a" (mkWorld ["temp"] [("temp/a", Dangling)] [] [])
  = (Ok "temp/a",
     mkWorld ["temp"] [("temp/a", Regular [])] [] [OpenWrite "temp/a"]).
Proof. reflexivity. Qed.

Example open_wb_below_a_file :
  fst (open_wb "temp/a" destination_is_a_file)
  = Raise (not_a_directory "temp/a").
Proof. reflexivity. Qed.

Example listdir_of_a_file :
  fst (os_listdir "temp" destination_is_a_file)
  = Raise (not_a_directory "temp").
Proof. reflexivity. Qed.

Example listdir_of_nothing :
  fst (os_listdir "temp" empty_world) = Raise (no_such_file "temp").
Proof. reflexivity. Qed.

Example sha256_empty :
  Sha256.hexdigest (Sha256.sha256 [])
  = "e3b0c44298fc1c149afbf4c8996fb92427ae41e4649b934ca495991b7852b855".
Proof. vm_compute. reflexivity. Qed.

Example sha256_abc :
  Sha256.hexdigest (Sha256.sha256 [x61; x62; x63]%byte)
  = "ba7816bf8f01cfea414140de5dae2223b00361a396177a9cb410ff61f20015ad".
Proof. vm_compute. reflexivity. Qed.

(* ================================================================== *)
(** ** Reasoning about effects *)

Create HintDb effects.

Section Effects.

Context {B : Type} (f : world -> B) (P : event -> Prop).

Lemma keeps_ret A (a : A) : keeps f (ret a).
Proof. intro w. reflexivity. Qed.

Lemma keeps_raise A (e : exn) : keeps f (@raise A e).
Proof. intro w. reflexivity. Qed.

Lemma keeps_lift A (r : result A) : keeps f (lift r).
Proof. intro w. reflexivity. Qed.

Lemma keeps_bind A C (m : M A) (k : A -> M C) :
  keeps f m -> (forall a, keeps f (k a)) -> keeps f (bind m k).
Proof.
  intros Hm Hk w. unfold bind. specialize (Hm w).
  destruct (m w) as [[a|e] w1]; simpl in *.
  - rewrite Hk. exact Hm.
  - exact Hm.
Qed.

Lemma keeps_try A (body : M A) catches handler :
  keeps f body -> (forall e, keeps f (handler e)) ->
  keeps f (try_except body catches handler).
Proof.
  intros Hb Hh w. unfold try_except. specialize (Hb w).
  destruct (body w) as [[a|e] w1]; simpl in *.
  - exact Hb.
  - destruct (catches e); simpl.
    + rewrite Hh. exact Hb.
    + exact Hb.
Qed.

Lemma emits_ret A (a : A) : emits P (ret a).
Proof. intro w. exists []. simpl. rewrite app_nil_r. auto. Qed.

Lemma emits_raise A (e : exn) : emits P (@raise A e).
Proof. intro w. exists []. simpl. rewrite app_nil_r. auto. Qed.

Lemma emits_lift A (r : result A) : emits P (lift r).
Proof. intro w. exists []. simpl. rewrite app_nil_r. auto. Qed.

Lemma emits_silent A (m : M A) : keeps trace m -> emits P m.
Proof.
  intros H w. exists []. rewrite H, app_nil_r. auto.
Qed.

Lemma emits_emit ev : P ev -> emits P (emit ev).
Proof. intros H w. exists [ev]. simpl. auto. Qed.

Lemma emits_bind A C (m : M A) (k : A -> M C) :
  emits P m -> (forall a, emits P (k a)) -> emits P (bind m k).
Proof.
  intros Hm Hk w. unfold bind. destruct (Hm w) as [e1 [H1 F1]].
  destruct (m w) as [[a|e] w1]; simpl in *.
  - destruct (Hk a w1) as [e2 [H2 F2]].
    exists (e1 ++ e2). rewrite H2, H1, app_assoc.
    split; [reflexivity | apply Forall_app; auto].
  - exists e1. auto.
Qed.

Lemma emits_try A (body : M A) catches handler :
  emits P body -> (forall e, emits P (handler e)) ->
  emits P (try_except body catches handler).
Proof.
  intros Hb Hh w. unfold try_except. destruct (Hb w) as [e1 [H1 F1]].
  destruct (body w) as [[a|e] w1]; simpl in *.
  - exists e1. auto.
  - destruct (catches e); simpl.
    + destruct (Hh e w1) as [e2 [H2 F2]].
      exists (e1 ++ e2). rewrite H2, H1, app_assoc.
      split; [reflexivity | apply Forall_app; auto].
    + exists e1. auto.
Qed.

End Effects.

#[export] Hint Resolve keeps_ret keeps_raise keeps_lift : effects.
#[export] Hint Resolve emits_ret emits_raise emits_lift : effects.

(** Splits a goal about a composed computation into goals about its
    parts. *)
Ltac effects_step :=
  match goal with
  | |- keeps _ (bind _ _) => apply keeps_bind; [ | intro ]
  | |- keeps _ (try_except _ _ _) => apply keeps_try; [ | intro ]
  | |- emits _ (bind _ _) => apply emits_bind; [ | intro ]
  | |- emits _ (try_except _ _ _) => apply emits_try; [ | intro ]
  | |- keeps _ (if ?b then _ else _) => destruct b
  | |- emits _ (if ?b then _ else _) => destruct b
  | |- keeps _ (match ?x with Some _ => _ | None => _ end) => destruct x
  | |- emits _ (match ?x with Some _ => _ | None => _ end) => destruct x
  | |- keeps _ (let (_, _) := ?x in _) => destruct x
  | |- emits _ (let (_, _) := ?x in _) => destruct x
  end.

Ltac effects := repeat effects_step; auto with effects.

(** *** The primitives *)

Lemma logger_error_keeps_trace msg : keeps trace (logger_error msg).
Proof. intro w. reflexivity. Qed.

Lemma logger_info_keeps_trace msg : keeps trace (logger_info msg).
Proof. intro w. reflexivity. Qed.

Lemma logger_error_keeps_files msg : keeps files (logger_error msg).
Proof. intro w. reflexivity. Qed.

Lemma logger_info_keeps_files msg : keeps files (logger_info msg).
Proof. intro w. reflexivity. Qed.

Lemma logger_error_keeps_dirs msg : keeps dirs (logger_error msg).
Proof. intro w. reflexivity. Qed.

Lemma logger_info_keeps_dirs msg : keeps dirs (logger_info msg).
Proof. intro w. reflexivity. Qed.

Lemma logger_error_keeps_infos msg : keeps infos (logger_error msg).
Proof.
  intro w. unfold infos. simpl. rewrite flat_map_app. simpl.
  apply app_nil_r.
Qed.

Lemma emit_keeps_files ev : keeps files (emit ev).
Proof. intro w. reflexivity. Qed.

Lemma emit_keeps_dirs ev : keeps dirs (emit ev).
Proof. intro w. reflexivity. Qed.

Lemma emit_keeps_log ev : keeps log (emit ev).
Proof. intro w. reflexivity. Qed.

Lemma emit_keeps_infos ev : keeps infos (emit ev).
Proof. intro w. reflexivity. Qed.

#[export] Hint Resolve logger_error_keeps_trace logger_info_keeps_trace
  logger_error_keeps_files logger_info_keeps_files
  logger_error_keeps_dirs logger_info_keeps_dirs logger_error_keeps_infos
  emit_keeps_files emit_keeps_dirs emit_keeps_log emit_keeps_infos : effects.

Lemma emits_logger_error P msg : emits P (logger_error msg).
Proof. apply emits_silent. auto with effects. Qed.

Lemma emits_logger_info P msg : emits P (logger_info msg).
Proof. apply emits_silent. auto with effects. Qed.

#[export] Hint Resolve emits_logger_error emits_logger_info : effects.

Lemma emits_session_head session url :
  emits (of_stage DiscoverSize) (session_head session url).
Proof.
  unfold session_head. effects. apply emits_emit. reflexivity.
Qed.

Lemma emits_os_path_exists path :
  emits (of_stage PrepareDestination) (os_path_exists path).
Proof.
  unfold os_path_exists. effects.
  - apply emits_emit. reflexivity.
  - apply emits_silent. intro w. reflexivity.
Qed.

Lemma emits_os_makedirs session path :
  emits (of_stage PrepareDestination) (os_makedirs session path).
Proof.
  unfold os_makedirs. effects.
  - apply emits_emit. reflexivity.
  - apply emits_silent. intro w. destruct (makedirs_error session path);
      reflexivity.
Qed.

Lemma emits_session_get session url hdrs :
  emits (of_stage Transfer) (session_get session url hdrs).
Proof.
  unfold session_get. effects. apply emits_emit. reflexivity.
Qed.

Lemma emits_open_wb path : emits (of_stage Transfer) (open_wb path).
Proof.
  unfold open_wb. effects.
  - apply emits_emit. reflexivity.
  - apply emits_silent. intro w. destruct (in_some_dir path w);
      [ destruct (find_node path (files w)) as [[]|] | ]; reflexivity.
Qed.

Lemma emits_file_write file chunk :
  emits (of_stage Transfer) (file_write file chunk).
Proof.
  unfold file_write. effects.
  - apply emits_emit. reflexivity.
  - apply emits_silent. intro w.
    destruct (find_node file (files w)) as [[]|]; reflexivity.
Qed.

Lemma emits_os_listdir path : emits (of_stage Digest) (os_listdir path).
Proof.
  unfold os_listdir. effects.
  - apply emits_emit. reflexivity.
  - apply emits_silent. intro w. destruct (is_dir path w); reflexivity.
Qed.

Lemma emits_open_rb path : emits (of_stage Digest) (open_rb path).
Proof.
  unfold open_rb. effects.
  - apply emits_emit. reflexivity.
  - apply emits_silent. intro w.
    destruct (find_node path (files w)) as [[]|]; reflexivity.
Qed.

Lemma emits_file_read P file : emits P (file_read file).
Proof.
  apply emits_silent. intro w. unfold file_read.
  destruct (find_node file (files w)) as [[]|]; reflexivity.
Qed.

#[export] Hint Resolve emits_session_head emits_os_path_exists
  emits_os_makedirs emits_session_get emits_open_wb emits_file_write
  emits_os_listdir emits_open_rb emits_file_read : effects.

(* ================================================================== *)
(** ** The messages the program formats *)

Lemma append_empty (s : string) : (s ++ EmptyString)%string = s.
Proof. induction s; simpl; [reflexivity | now rewrite IHs]. Qed.

Ltac format_eval :=
  cbv - [string_of_Z str_exn String.append];
  cbn [String.append];
  rewrite append_empty;
  reflexivity.

Lemma format_range start end_ :
  Format.format "bytes={}-{}" [VInt start; VInt end_] []
  = Ok (range_header start end_).
Proof. format_eval. Qed.

Lemma format_artifact start end_ :
  Format.format "temp_{}_{}" [VInt start; VInt end_] []
  = Ok (artifact_name start end_).
Proof. format_eval. Qed.

Lemma format_connect_failure e :
  Format.format "Failed to connect to server: {}" [VExn e] []
  = Ok ("Failed to connect to server: " ++ str_exn e)%string.
Proof. format_eval. Qed.

Lemma format_directory_failure e :
  Format.format "Failed to create directory: {}" [VExn e] []
  = Ok ("Failed to create directory: " ++ str_exn e)%string.
Proof. format_eval. Qed.

Lemma format_chunk_failure e :
  Format.format "Failed to download chunk: {}" [VExn e] []
  = Ok ("Failed to download chunk: " ++ str_exn e)%string.
Proof. format_eval. Qed.

Lemma format_repository_failure e :
  Format.format "Failed to download repository: {}" [VExn e] []
  = Ok ("Failed to download repository: " ++ str_exn e)%string.
Proof. format_eval. Qed.

Lemma format_hash_failure e :
  Format.format "Failed to hash file: {}" [VExn e] []
  = Ok ("Failed to hash file: " ++ str_exn e)%string.
Proof. format_eval. Qed.

(** The template of the record of a digest names its fields, and the call
    passes the two values by position: the lookup of the first name among
    the keywords, of which there are none, raises [KeyError]. *)
Lemma format_digest_record filename hash_digest :
  Format.format "{filename}: {hash_digest}"
                [VStr filename; VStr hash_digest] []
  = Raise (mkExn KeyError "filename").
Proof. reflexivity. Qed.

(* ================================================================== *)
(** ** [download_chunk] and the join of [download_chunks] *)

Section Transfer.

Variables BLOCK_SIZE NUM_OF_BLOCKS : Z.
Variables REPO_URL TEMP_DIR : string.
Variable session : remote.

Local Abbreviation download_chunk' :=
  (download_chunk BLOCK_SIZE REPO_URL session).
Local Abbreviation download_chunk_try' :=
  (download_chunk_try BLOCK_SIZE REPO_URL session).
Local Abbreviation download_chunks' :=
  (download_chunks BLOCK_SIZE NUM_OF_BLOCKS REPO_URL TEMP_DIR session).

(** What [download_chunk] does, from what its [try] block does. *)
Lemma download_chunk_unfold start end_ temp_dir w :
  download_chunk' start end_ temp_dir w
  = match download_chunk_try' [("Range", range_header start end_)]
                             start end_ temp_dir w with
    | (Ok _, w1) => (Ok tt, w1)
    | (Raise e, w1) =>
        (Ok tt, log_error ("Failed to download chunk: " ++ str_exn e) w1)
    end.
Proof.
  unfold download_chunk, bind at 1, lift.
  rewrite format_range. unfold try_except.
  destruct (download_chunk_try' _ start end_ temp_dir w) as [[[]|e] w1].
  - reflexivity.
  - unfold isinstance_Exception, bind, lift.
    rewrite format_chunk_failure. reflexivity.
Qed.

Lemma download_chunk_returns start end_ temp_dir w :
  fst (download_chunk' start end_ temp_dir w) = Ok tt.
Proof.
  rewrite download_chunk_unfold.
  destruct (download_chunk_try' _ start end_ temp_dir w) as [[[]|e] w1];
    reflexivity.
Qed.

Lemma run_tasks_all_return (tasks : list (M unit)) :
  Forall (fun t => forall w, fst (t w) = Ok tt) tasks ->
  forall w, fst (run_tasks tasks w) = repeat (Ok tt) (List.length tasks).
Proof.
  induction 1 as [|t tasks Ht _ IH]; intro w; simpl.
  - reflexivity.
  - specialize (Ht w). destruct (t w) as [r w1]. simpl in Ht. subst r.
    specialize (IH w1). destruct (run_tasks tasks w1) as [rs w2].
    simpl in *. now rewrite IH.
Qed.

Lemma collect_all_ok (n : nat) :
  collect (repeat (@Ok unit tt) n) = Ok (repeat tt n).
Proof. induction n; simpl; [reflexivity | now rewrite IHn]. Qed.

(** The join over tasks that are calls of [download_chunk] yields their
    values: none of them hands it an exception. *)
Lemma gather_download_chunks (ranges : list (Z * Z)) temp_dir w :
  fst (gather (map (fun r => download_chunk' (fst r) (snd r) temp_dir)
                   ranges) w)
  = Ok (repeat tt (List.length ranges)).
Proof.
  unfold gather.
  pose proof (run_tasks_all_return
                (map (fun r => download_chunk' (fst r) (snd r) temp_dir)
                     ranges)) as H.
  specialize (H ltac:(apply Forall_forall; intros t Ht;
                      apply in_map_iff in Ht; destruct Ht as [r [<- _]];
                      intro; apply download_chunk_returns) w).
  destruct (run_tasks _ w) as [rs w']. simpl in *.
  rewrite H, length_map. apply collect_all_ok.
Qed.

Lemma download_chunks_tasks content_length chunk_size :
  map (fun i =>
         let (start, end_) := chunk_bounds content_length chunk_size i in
         download_chunk' start end_ TEMP_DIR)
      (py_range NUM_OF_BLOCKS)
  = map (fun r => download_chunk' (fst r) (snd r) TEMP_DIR)
        (map (chunk_bounds content_length chunk_size)
             (py_range NUM_OF_BLOCKS)).
Proof.
  rewrite map_map. apply map_ext. intro i.
  destruct (chunk_bounds content_length chunk_size i). reflexivity.
Qed.

(** [download_chunks] returns [True] whenever the number of blocks is not
    zero, and never returns [False]. *)
Lemma download_chunks_returns_true content_length w :
  NUM_OF_BLOCKS <> 0 ->
  fst (download_chunks' content_length w) = Ok true.
Proof.
  intro Hn. unfold download_chunks.
  unfold bind at 1, lift, floordiv.
  destruct (Z.eqb_spec NUM_OF_BLOCKS 0) as [E|_]; [contradiction | ].
  rewrite download_chunks_tasks.
  unfold try_except, bind.
  pose proof (gather_download_chunks
                (map (chunk_bounds content_length
                                   (content_length / NUM_OF_BLOCKS))
                     (py_range NUM_OF_BLOCKS)) TEMP_DIR w) as H.
  destruct (gather _ w) as [[vs|e] w']; simpl in H.
  - reflexivity.
  - discriminate.
Qed.

Lemma download_chunks_never_false content_length w :
  fst (download_chunks' content_length w) <> Ok false.
Proof.
  destruct (Z.eq_dec NUM_OF_BLOCKS 0) as [E|E].
  - unfold download_chunks.
    unfold bind at 1, lift, floordiv. rewrite E. simpl. discriminate.
  - rewrite download_chunks_returns_true by assumption. discriminate.
Qed.

(** C10.  [download_chunk] returns normally from every world, for every
    range and directory: when its [try] block raises, whether at the
    request, at the opening of the file or at a write, the exception is
    logged as an error and the call still returns.  So the join of
    [download_chunks] receives a value from each task, and
    [download_chunks] never takes its [except] branch. *)
Theorem download_chunk_never_raises start end_ temp_dir w :
  (exists w', download_chunk' start end_ temp_dir w = (Ok tt, w')
     /\ match download_chunk_try' [("Range", range_header start end_)]
                                 start end_ temp_dir w with
        | (Ok _, w1) => w' = w1
        | (Raise e, w1) =>
            w' = log_error ("Failed to download chunk: " ++ str_exn e) w1
        end)
  /\ (forall ranges,
        fst (gather (map (fun r => download_chunk' (fst r) (snd r) TEMP_DIR)
                         ranges) w)
        = Ok (repeat tt (List.length ranges)))
  /\ (forall content_length,
        fst (download_chunks' content_length w) <> Ok false).
Proof.
  split; [ | split].
  - rewrite download_chunk_unfold.
    destruct (download_chunk_try' _ start end_ temp_dir w) as [[[]|e] w1];
      eexists; split; reflexivity.
  - intro ranges. apply gather_download_chunks.
  - intro content_length. apply download_chunks_never_false.
Qed.

End Transfer.

(* ================================================================== *)
(** ** The digesting pass *)

Lemma hex_char_is_hex (x : Z) : Sha256.is_hex (Sha256.hex_char x) = true.
Proof.
  unfold Sha256.hex_char.
  change 15 with (Z.ones 4). rewrite Z.land_ones by lia.
  pose proof (Z.mod_pos_bound x (2 ^ 4) ltac:(lia)) as Hb.
  remember (Z.to_nat (x mod 2 ^ 4)) as n eqn:En.
  assert (Hn : (n < 16)%nat) by (subst n; lia).
  clear En Hb.
  do 16 (destruct n as [|n]; [reflexivity | ]). lia.
Qed.

Lemma hexdigest_length (s : Sha256.state) :
  String.length (Sha256.hexdigest s) = 64%nat.
Proof. reflexivity. Qed.

Lemma hexdigest_all_hex (s : Sha256.state) :
  Sha256.all_hex (Sha256.hexdigest s) = true.
Proof.
  unfold Sha256.hexdigest, Sha256.hex8. cbn [Sha256.all_hex].
  rewrite !hex_char_is_hex. reflexivity.
Qed.

(** What [download_and_hash_file] does, by what the path holds. *)
Lemma download_and_hash_file_unfold filepath w :
  download_and_hash_file filepath w
  = (match find_node filepath (files w) with
     | Some (Regular content) =>
         Ok (Sha256.hexdigest (Sha256.sha256 content))
     | Some Denied => Raise (permission_denied filepath)
     | Some Subdir => Raise (is_a_directory filepath)
     | Some Dangling => Raise (no_such_file filepath)
     | None => Raise (missing filepath w)
     end, add_event (OpenRead filepath) w).
Proof.
  unfold download_and_hash_file, open_rb, file_read, bind, emit, ret.
  change (files (add_event (OpenRead filepath) w)) with (files w).
  destruct (find_node filepath (files w)) as [[content| | |]|] eqn:E;
    try reflexivity.
  change (files (add_event (OpenRead filepath) w)) with (files w).
  rewrite E. reflexivity.
Qed.

(** Every turn of the loop returns [False]: the file cannot be hashed, or
    it can and the formatting of its record raises. *)
Lemma hash_one_unfold TEMP_DIR filename w :
  hash_one TEMP_DIR filename w
  = (Ok (Some false),
     log_error ("Failed to hash file: "
                ++ str_exn (hash_failure (os_path_join TEMP_DIR filename) w))
       (add_event (OpenRead (os_path_join TEMP_DIR filename)) w)).
Proof.
  unfold hash_one, try_except, bind at 1.
  rewrite download_and_hash_file_unfold. unfold hash_failure.
  destruct (find_node (os_path_join TEMP_DIR filename) (files w))
    as [[content| | |]|];
    unfold isinstance_Exception, bind, lift;
    try rewrite format_digest_record;
    rewrite format_hash_failure; reflexivity.
Qed.

Lemma hash_each_unfold TEMP_DIR filenames w :
  hash_each TEMP_DIR filenames w
  = match filenames with
    | [] => (Ok true, w)
    | filename :: _ =>
        (Ok false,
         log_error
           ("Failed to hash file: "
            ++ str_exn (hash_failure (os_path_join TEMP_DIR filename) w))
           (add_event (OpenRead (os_path_join TEMP_DIR filename)) w))
    end.
Proof.
  destruct filenames as [|filename rest]; [reflexivity | ].
  cbn [hash_each]. unfold bind. rewrite hash_one_unfold. reflexivity.
Qed.

Lemma compute_file_hashes_unfold TEMP_DIR w :
  is_dir TEMP_DIR w = true ->
  compute_file_hashes TEMP_DIR w
  = hash_each TEMP_DIR (dir_entries TEMP_DIR w)
              (add_event (Listdir TEMP_DIR) w).
Proof.
  intro Hd. unfold compute_file_hashes, os_listdir, bind, emit.
  change (is_dir TEMP_DIR (add_event (Listdir TEMP_DIR) w))
    with (is_dir TEMP_DIR w).
  rewrite Hd. reflexivity.
Qed.

Lemma compute_file_hashes_not_dir TEMP_DIR w :
  is_dir TEMP_DIR w = false ->
  compute_file_hashes TEMP_DIR w
  = (Raise (listdir_error TEMP_DIR w), add_event (Listdir TEMP_DIR) w).
Proof.
  intro Hd. unfold compute_file_hashes, os_listdir, bind, emit.
  change (is_dir TEMP_DIR (add_event (Listdir TEMP_DIR) w))
    with (is_dir TEMP_DIR w).
  now rewrite Hd.
Qed.

(** The digesting pass over a directory that has an entry, readable or
    not, returns [False] after its first turn, and records no digest. *)
Lemma compute_file_hashes_nonempty TEMP_DIR w filename rest :
  is_dir TEMP_DIR w = true ->
  dir_entries TEMP_DIR w = filename :: rest ->
  compute_file_hashes TEMP_DIR w
  = (Ok false,
     log_error
       ("Failed to hash file: "
        ++ str_exn (hash_failure (os_path_join TEMP_DIR filename) w))
       (add_event (OpenRead (os_path_join TEMP_DIR filename))
                  (add_event (Listdir TEMP_DIR) w))).
Proof.
  intros Hd He. rewrite compute_file_hashes_unfold by assumption.
  rewrite hash_each_unfold, He. reflexivity.
Qed.

Lemma opened_app tr1 tr2 : opened (tr1 ++ tr2) = opened tr1 ++ opened tr2.
Proof. unfold opened. apply flat_map_app. Qed.

(** ** C7 *)

(** C7.  When the directory holds an entry that cannot be opened for
    reading (a missing target, refused permissions, a directory), the
    digesting pass returns [False], a bare boolean that carries no digest,
    and it stops there: the files it opened are a prefix of the listing that
    ends no later than the failing entry, so that no later entry is
    processed. *)
Theorem digest_pass_aborts_on_failure TEMP_DIR w before filename after :
  is_dir TEMP_DIR w = true ->
  dir_entries TEMP_DIR w = before ++ filename :: after ->
  readable (os_path_join TEMP_DIR filename) w = false ->
  fst (compute_file_hashes TEMP_DIR w) = Ok false
  /\ exists k,
       opened (trace (snd (compute_file_hashes TEMP_DIR w)))
       = opened (trace w)
         ++ map (os_path_join TEMP_DIR) (firstn k (before ++ [filename])).
Proof.
  intros Hd He _.
  assert (Hfirst : exists first rest,
             dir_entries TEMP_DIR w = first :: rest
             /\ firstn 1 (before ++ [filename]) = [first]).
  { destruct before as [|b before'].
    - exists filename, after. split; [exact He | reflexivity].
    - exists b, (before' ++ filename :: after).
      split; [exact He | reflexivity]. }
  destruct Hfirst as [first [rest [Hl Hk]]].
  rewrite (compute_file_hashes_nonempty _ _ _ _ Hd Hl).
  split; [reflexivity | ].
  exists 1%nat. rewrite Hk. cbn [snd log_error add_event trace].
  rewrite !opened_app. cbn. rewrite app_nil_r. reflexivity.
Qed.

Lemma digest_pass_aborts_on_failure_witness :
  readable "temp/temp_1000_1999" mixed_directory = false
  /\ fst (compute_file_hashes "temp" mixed_directory) = Ok false
  /\ exists k,
       opened (trace (snd (compute_file_hashes "temp" mixed_directory)))
       = opened (trace mixed_directory)
         ++ map (os_path_join "temp")
                (firstn k (["temp_0_999"] ++ ["temp_1000_1999"])).
Proof.
  split; [reflexivity | ].
  apply (digest_pass_aborts_on_failure
           "temp" mixed_directory
           ["temp_0_999"] "temp_1000_1999" ["temp_2000_3000"]);
    reflexivity.
Defined.

(** ** C5 *)

(** C5.  Over a directory whose only entry is a readable file the digest of
    the file is computed, and then the formatting of its record raises
    [KeyError]: the pass logs the error, records no name and digest, and
    returns [False]. *)
Theorem digest_pass_fails_on_readable_directory :
  dir_entries "temp" readable_directory = ["temp_0_999"]
  /\ readable "temp/temp_0_999" readable_directory = true
  /\ fst (download_and_hash_file "temp/temp_0_999" readable_directory)
     = Ok "ba7816bf8f01cfea414140de5dae2223b00361a396177a9cb410ff61f20015ad"
  /\ fst (compute_file_hashes "temp" readable_directory) = Ok false
  /\ infos (snd (compute_file_hashes "temp" readable_directory)) = []
  /\ errors (snd (compute_file_hashes "temp" readable_directory))
     = [ "Failed to hash file: 'filename'" ].
Proof. vm_compute. repeat split. Qed.

(** ** C9 *)

(** C9.  As long as the file holds the same bytes, [download_and_hash_file]
    returns the same string each time it is called: the SHA-256 digest of
    those bytes, written as 64 lower-case hexadecimal digits.  The call
    leaves the file as it was. *)
Theorem digest_is_deterministic filepath content w :
  find_node filepath (files w) = Some (Regular content) ->
  exists digest w1 w2,
    download_and_hash_file filepath w = (Ok digest, w1)
    /\ download_and_hash_file filepath w1 = (Ok digest, w2)
    /\ files w2 = files w
    /\ digest = Sha256.hexdigest (Sha256.sha256 content)
    /\ String.length digest = 64%nat
    /\ Sha256.all_hex digest = true.
Proof.
  intro Hf.
  exists (Sha256.hexdigest (Sha256.sha256 content)),
         (add_event (OpenRead filepath) w),
         (add_event (OpenRead filepath) (add_event (OpenRead filepath) w)).
  rewrite !download_and_hash_file_unfold. cbn [add_event files].
  rewrite Hf.
  repeat split.
  - apply hexdigest_all_hex.
Qed.

Lemma digest_is_deterministic_witness :
  find_node "temp/temp_0_999" (files readable_directory)
  = Some (Regular [x61; x62; x63]%byte)
  /\ exists digest w1 w2,
       download_and_hash_file "temp/temp_0_999" readable_directory
       = (Ok digest, w1)
       /\ download_and_hash_file "temp/temp_0_999" w1 = (Ok digest, w2)
       /\ files w2 = files readable_directory
       /\ digest = Sha256.hexdigest (Sha256.sha256 [x61; x62; x63]%byte)
       /\ String.length digest = 64%nat
       /\ Sha256.all_hex digest = true.
Proof.
  split; [reflexivity | ].
  apply (digest_is_deterministic
           "temp/temp_0_999" [x61; x62; x63]%byte readable_directory).
  reflexivity.
Defined.

(* ================================================================== *)
(** ** The calls each stage makes *)

Section StageCalls.

Variables BLOCK_SIZE NUM_OF_BLOCKS : Z.
Variables REPO_URL TEMP_DIR : string.
Variable session : remote.

Lemma emits_get_content_length :
  emits (of_stage DiscoverSize) (get_content_length REPO_URL session).
Proof. unfold get_content_length. effects. Qed.





Lemma emits_write_chunks file chunks failure :
  emits (of_stage Transfer) (write_chunks file chunks failure).
Proof.
  induction chunks as [|chunk chunks IH]; cbn [write_chunks]; effects.
Qed.

Lemma emits_download_chunk start end_ temp_dir :
  emits (of_stage Transfer)
        (download_chunk BLOCK_SIZE REPO_URL session start end_ temp_dir).
Proof.
  unfold download_chunk, download_chunk_try. effects.
  apply emits_write_chunks.
Qed.

Lemma emits_gather A P (tasks : list (M A)) :
  Forall (emits P) tasks -> emits P (gather tasks).
Proof.
  unfold gather. induction 1 as [|t tasks Ht _ IH]; intro w.
  - exists []. simpl. rewrite app_nil_r. auto.
  - cbn [run_tasks]. destruct (Ht w) as [e1 [H1 F1]].
    destruct (t w) as [r w1]. cbn [snd] in H1.
    destruct (IH w1) as [e2 [H2 F2]].
    destruct (run_tasks tasks w1) as [rs w2]. cbn [snd] in *.
    exists (e1 ++ e2). rewrite H2, H1, app_assoc.
    split; [reflexivity | apply Forall_app; auto].
Qed.

Lemma emits_download_chunks content_length :
  emits (of_stage Transfer)
        (download_chunks BLOCK_SIZE NUM_OF_BLOCKS REPO_URL TEMP_DIR session
                         content_length).
Proof.
  unfold download_chunks. effects.
  apply emits_gather. apply Forall_forall. intros t Ht.
  apply in_map_iff in Ht. destruct Ht as [i [<- _]].
  destruct (chunk_bounds content_length a i).
  apply emits_download_chunk.
Qed.

Lemma emits_compute_file_hashes :
  emits (of_stage Digest) (compute_file_hashes TEMP_DIR).
Proof.
  unfold compute_file_hashes. effects.
  induction a as [|filename rest IH]; cbn [hash_each]; effects.
  unfold hash_one, download_and_hash_file. effects.
Qed.

End StageCalls.

(* ================================================================== *)
(** ** The session *)

Section Session.

Variables BLOCK_SIZE NUM_OF_BLOCKS : Z.
Variables REPO_URL TEMP_DIR : string.
Variable session : remote.

Local Abbreviation get_content_length' :=
  (get_content_length REPO_URL session).
Local Abbreviation create_temp_dir' :=
  (create_temp_dir TEMP_DIR session).
Local Abbreviation download_chunks' :=
  (download_chunks BLOCK_SIZE NUM_OF_BLOCKS REPO_URL TEMP_DIR session).
Local Abbreviation compute_file_hashes' :=
  (compute_file_hashes TEMP_DIR).
Local Abbreviation download_repo' :=
  (download_repo BLOCK_SIZE NUM_OF_BLOCKS REPO_URL TEMP_DIR session).

(** The session, stage by stage: each stage starts in the world the one
    before it left, and only when that one returned what lets it through. *)
Lemma download_repo_unfold w :
  download_repo' w
  = match get_content_length' w with
    | (Ok (Some content_length), w0) =>
        match create_temp_dir' w0 with
        | (Ok true, w1) =>
            match download_chunks' content_length w1 with
            | (Ok true, w2) =>
                match compute_file_hashes' w2 with
                | (Ok _, w3) => (Ok tt, w3)
                | (Raise e, w3) => (Raise e, w3)
                end
            | (Ok false, w2) => (Ok tt, w2)
            | (Raise e, w2) => (Raise e, w2)
            end
        | (Ok false, w1) => (Ok tt, w1)
        | (Raise e, w1) => (Raise e, w1)
        end
    | (Ok None, w0) => (Ok tt, w0)
    | (Raise e, w0) => (Raise e, w0)
    end.
Proof.
  unfold download_repo, bind.
  destruct (get_content_length' w) as [[[n|]|e] w0]; try reflexivity.
  destruct (create_temp_dir' w0) as [[[|]|e] w1]; try reflexivity.
  cbn [negb].
  destruct (download_chunks' n w1) as [[[|]|e] w2]; try reflexivity.
  cbn [negb].
  destruct (compute_file_hashes' w2) as [[[|]|e] w3]; reflexivity.
Qed.

End Session.

(* ================================================================== *)
(** ** Size discovery *)

Lemma headers_get_absent key default hdrs :
  header_present key hdrs = false -> headers_get key default hdrs = default.
Proof.
  induction hdrs as [|[k v] hdrs IH]; cbn [headers_get header_present existsb fst].
  - reflexivity.
  - intro H. apply orb_false_iff in H. destruct H as [Hk Hr].
    rewrite Hk. apply IH. exact Hr.
Qed.

Section SizeDiscovery.

Variables BLOCK_SIZE NUM_OF_BLOCKS : Z.
Variables REPO_URL TEMP_DIR : string.
Variable session : remote.

Local Abbreviation get_content_length' :=
  (get_content_length REPO_URL session).
Local Abbreviation create_temp_dir' :=
  (create_temp_dir TEMP_DIR session).
Local Abbreviation download_repo' :=
  (download_repo BLOCK_SIZE NUM_OF_BLOCKS REPO_URL TEMP_DIR session).

Lemma get_content_length_unreachable e w :
  http_head session REPO_URL = Raise e ->
  isinstance_ClientConnectorError e = true ->
  get_content_length' w
  = (Ok None,
     log_error ("Failed to connect to server: " ++ str_exn e)
               (add_event (Head REPO_URL) w)).
Proof.
  intros Hh Hc.
  unfold get_content_length, try_except, session_head, bind, emit, lift.
  rewrite Hh, Hc, format_connect_failure. reflexivity.
Qed.

Lemma get_content_length_no_header response w :
  http_head session REPO_URL = Ok response ->
  header_present "Content-Length" (headers response) = false ->
  get_content_length' w = (Ok (Some 0), add_event (Head REPO_URL) w).
Proof.
  intros Hh Ha.
  unfold get_content_length, try_except, session_head, bind, emit, lift.
  rewrite Hh, (headers_get_absent _ _ _ Ha). reflexivity.
Qed.

(** What [create_temp_dir] does, case by case. *)
Lemma create_temp_dir_unfold w :
  create_temp_dir' w
  = let w1 := add_event (PathExists TEMP_DIR) w in
    if path_exists TEMP_DIR w then (Ok true, w1)
    else
      let w2 := add_event (Makedirs TEMP_DIR) w1 in
      match makedirs_error session TEMP_DIR with
      | None => (Ok true, add_dir TEMP_DIR w2)
      | Some e =>
          if isinstance_OSError e
          then (Ok false,
                log_error ("Failed to create directory: " ++ str_exn e) w2)
          else (Raise e, w2)
      end.
Proof.
  unfold create_temp_dir, os_path_exists, bind at 1.
  unfold bind at 1. unfold emit at 1.
  change (path_exists TEMP_DIR (add_event (PathExists TEMP_DIR) w))
    with (path_exists TEMP_DIR w).
  cbv zeta.
  destruct (path_exists TEMP_DIR w); cbn [negb]; [reflexivity | ].
  unfold try_except, os_makedirs, bind, emit.
  destruct (makedirs_error session TEMP_DIR) as [e|]; [ | reflexivity].
  destruct (isinstance_OSError e); [ | reflexivity].
  unfold lift. rewrite format_directory_failure. reflexivity.
Qed.

Lemma create_temp_dir_first_call w :
  exists evs,
    trace (snd (create_temp_dir' w)) = trace w ++ PathExists TEMP_DIR :: evs.
Proof.
  rewrite create_temp_dir_unfold. cbv zeta.
  destruct (path_exists TEMP_DIR w); [exists []; reflexivity | ].
  exists [Makedirs TEMP_DIR].
  destruct (makedirs_error session TEMP_DIR) as [e|];
    [destruct (isinstance_OSError e) | ];
    cbn [snd log_error add_dir add_event trace];
    rewrite <- app_assoc; reflexivity.
Qed.

(** Once the size is known the session asks whether the destination
    exists, and whatever follows only adds to the trace. *)
Lemma download_repo_prepares n w w0 :
  get_content_length' w = (Ok (Some n), w0) ->
  exists evs,
    trace (snd (download_repo' w))
    = trace w0 ++ PathExists TEMP_DIR :: evs.
Proof.
  intro Hs. rewrite download_repo_unfold, Hs.
  destruct (create_temp_dir_first_call w0) as [e1 H1].
  destruct (create_temp_dir' w0) as [r1 w1]. cbn [snd] in H1.
  destruct r1 as [[|]|e];
    [ | exists e1; exact H1 | exists e1; exact H1 ].
  destruct (emits_download_chunks BLOCK_SIZE NUM_OF_BLOCKS REPO_URL TEMP_DIR
                                  session n w1) as [e2 [H2 _]].
  destruct (download_chunks BLOCK_SIZE NUM_OF_BLOCKS REPO_URL TEMP_DIR
                            session n w1) as [r2 w2].
  cbn [snd] in H2.
  assert (H12 : trace w2 = trace w0 ++ PathExists TEMP_DIR :: e1 ++ e2)
    by (rewrite H2, H1, <- app_assoc; reflexivity).
  destruct r2 as [[|]|e];
    [ | eexists; exact H12 | eexists; exact H12 ].
  destruct (emits_compute_file_hashes TEMP_DIR w2) as [e3 [H3 _]].
  exists (e1 ++ e2 ++ e3).
  destruct (compute_file_hashes TEMP_DIR w2) as [[b|e] w3]; cbn [snd] in *;
    rewrite H3, H12, <- !app_assoc; cbn [app];
    rewrite <- !app_assoc; reflexivity.
Qed.

(** C4, as the program has it.  A connection error at the HEAD request is
    logged and ends the session there: the only call made is the request,
    and the directories and files are as they were.  A response without a
    [Content-Length] header is not a failure: the length is read as 0 and
    the session goes on to prepare the destination. *)
Theorem size_discovery_connection_error_or_default w :
  (forall e,
     http_head session REPO_URL = Raise e ->
     isinstance_ClientConnectorError e = true ->
     download_repo' w
     = (Ok tt,
        log_error ("Failed to connect to server: " ++ str_exn e)
                  (add_event (Head REPO_URL) w)))
  /\ (forall response,
        http_head session REPO_URL = Ok response ->
        header_present "Content-Length" (headers response) = false ->
        get_content_length' w = (Ok (Some 0), add_event (Head REPO_URL) w)
        /\ exists evs,
             trace (snd (download_repo' w))
             = trace w ++ Head REPO_URL :: PathExists TEMP_DIR :: evs).
Proof.
  split.
  - intros e Hh Hc. rewrite download_repo_unfold.
    rewrite (get_content_length_unreachable e w Hh Hc). reflexivity.
  - intros response Hh Ha.
    pose proof (get_content_length_no_header response w Hh Ha) as Hs.
    split; [exact Hs | ].
    destruct (download_repo_prepares 0 w _ Hs) as [evs Hevs].
    exists evs. rewrite Hevs. cbn [add_event trace].
    rewrite <- app_assoc. reflexivity.
Qed.

End SizeDiscovery.

(* ================================================================== *)
(** ** Sessions against particular servers *)

(** ** C1 *)

(** C1.  Against a server that refuses the second of the three range
    requests, the first and the third segment are written, the failure of
    the second is logged by [download_chunk], and [download_chunks] returns
    [True]; the session then goes on to the digesting pass. *)
Theorem failed_segment_is_not_reported :
  let transfer :=
    download_chunks 1024 3 repo_url "temp" flaky_server 3000 prepared_world in
  let run := download_repo 1024 3 repo_url "temp" flaky_server empty_world in
  fst transfer = Ok true
  /\ errors (snd transfer)
     = [ "Failed to download chunk: Cannot connect to host example.org:443" ]
  /\ requested_ranges (trace (snd transfer))
     = [ "bytes=0-999"; "bytes=1000-1999"; "bytes=2000-3000" ]
  /\ map fst (files (snd transfer))
     = [ "temp/temp_0_999"; "temp/temp_2000_3000" ]
  /\ entered Transfer (trace (snd run)) = true
  /\ entered Digest (trace (snd run)) = true.
Proof. vm_compute. repeat split. Qed.

(** ** C4 *)

(** C4, as stated, fails: the answer to the HEAD request has no
    [Content-Length], and the session creates the directory, sends three
    range requests and leaves two files. *)
Lemma session_goes_on_without_content_length :
  let run :=
    download_repo 1024 3 repo_url "temp" lengthless_server empty_world in
  http_head lengthless_server repo_url = Ok lengthless_response
  /\ header_present "Content-Length" (headers lengthless_response) = false
  /\ dirs (snd run) = ["temp"]
  /\ requested_ranges (trace (snd run))
     = [ "bytes=0--1"; "bytes=0--1"; "bytes=0-0" ]
  /\ map fst (files (snd run)) = [ "temp/temp_0_-1"; "temp/temp_0_0" ]
  /\ ~ (dirs (snd run) = dirs empty_world
        /\ entered Transfer (trace (snd run)) = false
        /\ files (snd run) = files empty_world).
Proof.
  vm_compute. repeat split. intros [H _]. discriminate H.
Qed.

Lemma size_discovery_connection_error_or_default_witness :
  (http_head unreachable_server repo_url = Raise connection_refused
   /\ isinstance_ClientConnectorError connection_refused = true
   /\ download_repo 1024 3 repo_url "temp" unreachable_server empty_world
      = (Ok tt,
         log_error ("Failed to connect to server: "
                    ++ str_exn connection_refused)
                   (add_event (Head repo_url) empty_world)))
  /\ (http_head lengthless_server repo_url = Ok lengthless_response
      /\ header_present "Content-Length" (headers lengthless_response) = false
      /\ get_content_length repo_url lengthless_server empty_world
         = (Ok (Some 0), add_event (Head repo_url) empty_world)
      /\ exists evs,
           trace (snd (download_repo 1024 3 repo_url "temp" lengthless_server
                                     empty_world))
           = trace empty_world
             ++ Head repo_url :: PathExists "temp" :: evs).
Proof.
  split.
  - split; [reflexivity | split; [reflexivity | ] ].
    apply (proj1 (size_discovery_connection_error_or_default
                    1024 3 repo_url "temp" unreachable_server empty_world)
                 connection_refused); reflexivity.
  - split; [reflexivity | split; [reflexivity | ] ].
    apply (proj2 (size_discovery_connection_error_or_default
                    1024 3 repo_url "temp" lengthless_server empty_world)
                 lengthless_response); reflexivity.
Defined.

(* ================================================================== *)
(** ** The requests of the transfer are the planned ranges *)

Lemma requested_ranges_app tr1 tr2 :
  requested_ranges (tr1 ++ tr2)
  = requested_ranges tr1 ++ requested_ranges tr2.
Proof. unfold requested_ranges. apply flat_map_app. Qed.

Lemma requested_ranges_writes evs :
  Forall is_write evs -> requested_ranges evs = [].
Proof.
  induction 1 as [|ev evs Hev _ IH]; [reflexivity | ].
  change (ev :: evs) with ([ev] ++ evs).
  rewrite requested_ranges_app, IH.
  destruct ev; try contradiction; reflexivity.
Qed.

Lemma writes_open_wb path : emits is_write (open_wb path).
Proof.
  unfold open_wb. effects.
  - apply emits_emit. exact I.
  - apply emits_silent. intro w. destruct (in_some_dir path w);
      [ destruct (find_node path (files w)) as [[]|] | ]; reflexivity.
Qed.

Lemma writes_file_write file chunk : emits is_write (file_write file chunk).
Proof.
  unfold file_write. effects.
  - apply emits_emit. exact I.
  - apply emits_silent. intro w.
    destruct (find_node file (files w)) as [[]|]; reflexivity.
Qed.

Lemma writes_write_chunks file chunks failure :
  emits is_write (write_chunks file chunks failure).
Proof.
  induction chunks as [|chunk chunks IH]; cbn [write_chunks]; effects.
  apply writes_file_write.
Qed.

#[export] Hint Resolve writes_open_wb writes_file_write writes_write_chunks
  : effects.

Section Requests.

Variables BLOCK_SIZE NUM_OF_BLOCKS : Z.
Variables REPO_URL TEMP_DIR : string.
Variable session : remote.

Lemma bind_session_get A url hdrs (k : response -> M A) w :
  bind (session_get session url hdrs) k w
  = match http_get session url hdrs with
    | Ok r => k r (add_event (Get url hdrs) w)
    | Raise e => (Raise e, add_event (Get url hdrs) w)
    end.
Proof.
  unfold session_get, bind, emit, lift.
  destruct (http_get session url hdrs); reflexivity.
Qed.

Lemma writes_after_request (r : response) start end_ temp_dir :
  emits is_write
        (name <- lift (Format.format "temp_{}_{}"
                                     [VInt start; VInt end_] []) ;;
         file <- open_wb (os_path_join temp_dir name) ;;
         let (chunks, failure) := iter_chunked r BLOCK_SIZE in
         write_chunks file chunks failure).
Proof. effects. Qed.

(** A call of [download_chunk] sends one request, for its range. *)
Lemma download_chunk_requests start end_ temp_dir w :
  requested_ranges
    (trace (snd (download_chunk BLOCK_SIZE REPO_URL session
                                start end_ temp_dir w)))
  = requested_ranges (trace w) ++ [range_header start end_].
Proof.
  rewrite download_chunk_unfold.
  unfold download_chunk_try. rewrite bind_session_get.
  destruct (http_get session REPO_URL [("Range", range_header start end_)])
    as [r|e].
  - destruct (writes_after_request r start end_ temp_dir
                (add_event (Get REPO_URL
                                [("Range", range_header start end_)]) w))
      as [evs [Hevs Fevs]].
    match goal with
    | H : trace (snd ?t) = _ |- _ => destruct t as [[[]|e] w1]
    end;
      cbn [snd log_error trace] in *; rewrite Hevs; cbn [add_event trace];
      rewrite !requested_ranges_app, (requested_ranges_writes _ Fevs);
      rewrite app_nil_r; reflexivity.
  - cbn [snd log_error add_event trace].
    rewrite requested_ranges_app. reflexivity.
Qed.

Lemma run_tasks_requests (ranges : list (Z * Z)) temp_dir w :
  requested_ranges
    (trace (snd (run_tasks
                   (map (fun r => download_chunk BLOCK_SIZE REPO_URL session
                                                 (fst r) (snd r) temp_dir)
                        ranges) w)))
  = requested_ranges (trace w)
    ++ map (fun r => range_header (fst r) (snd r)) ranges.
Proof.
  revert w. induction ranges as [|r ranges IH]; intro w; cbn [map run_tasks].
  - cbn [snd]. now rewrite app_nil_r.
  - pose proof (download_chunk_requests (fst r) (snd r) temp_dir w) as H1.
    destruct (download_chunk BLOCK_SIZE REPO_URL session (fst r) (snd r)
                             temp_dir w) as [v w1].
    cbn [snd] in H1. specialize (IH w1).
    destruct (run_tasks _ w1) as [rs w2]. cbn [snd] in *.
    rewrite IH, H1, <- app_assoc. reflexivity.
Qed.

(** The requests [download_chunks] sends are those of the planned ranges,
    in their order. *)
Lemma download_chunks_requests content_length w :
  NUM_OF_BLOCKS <> 0 ->
  requested_ranges
    (trace (snd (download_chunks BLOCK_SIZE NUM_OF_BLOCKS REPO_URL TEMP_DIR
                                 session content_length w)))
  = requested_ranges (trace w)
    ++ map (fun r => range_header (fst r) (snd r))
           (planned_ranges NUM_OF_BLOCKS content_length).
Proof.
  intro Hn. unfold download_chunks, planned_ranges.
  unfold bind at 1, lift, floordiv.
  destruct (Z.eqb_spec NUM_OF_BLOCKS 0) as [E|_]; [contradiction | ].
  rewrite download_chunks_tasks.
  pose proof (run_tasks_requests
                (map (chunk_bounds content_length
                                   (content_length / NUM_OF_BLOCKS))
                     (py_range NUM_OF_BLOCKS)) TEMP_DIR w) as Hr.
  pose proof (gather_download_chunks BLOCK_SIZE REPO_URL session
                (map (chunk_bounds content_length
                                   (content_length / NUM_OF_BLOCKS))
                     (py_range NUM_OF_BLOCKS)) TEMP_DIR w) as Hg.
  unfold try_except, bind, gather in *.
  destruct (run_tasks _ w) as [rs w1]. cbn [fst snd] in *.
  rewrite Hg. cbn [snd]. exact Hr.
Qed.

End Requests.

(* ================================================================== *)
(** ** The planned ranges *)

Lemma planned_ranges_three (total : Z) :
  planned_ranges 3 total
  = [ (0, total / 3 - 1);
      (total / 3, total / 3 + total / 3 - 1);
      (2 * (total / 3), total) ].
Proof.
  unfold planned_ranges, chunk_bounds.
  change (py_range 3) with [0; 1; 2].
  cbn [map Z.eqb Pos.eqb].
  generalize (total / 3). intro c.
  repeat f_equal; lia.
Qed.

(** X13.  With three blocks the index the loop tests is the last one, and the
    plan is what the specification asks of it. *)
Lemma planned_ranges_three_partition (total : Z) :
  0 < total ->
  List.length (planned_ranges 3 total) = 3%nat
  /\ pairwise_disjoint (planned_ranges 3 total)
  /\ covers (planned_ranges 3 total) total.
Proof.
  intro Hpos. rewrite planned_ranges_three.
  assert (Hc : 0 <= total / 3) by (apply Z.div_pos; lia).
  assert (Hm : 3 * (total / 3) <= total)
    by (apply Z.mul_div_le; lia).
  revert Hc Hm. generalize (total / 3). intros c Hc Hm.
  remember (2 * c) as d eqn:Ed.
  split; [reflexivity | split].
  - intros i j r s Hij Hi Hj [x [Hr Hs]].
    unfold in_range in Hr, Hs.
    destruct i as [|[|[|i]]]; destruct j as [|[|[|j]]];
      cbn [nth_error] in Hi, Hj;
      try lia;
      try (destruct i; discriminate);
      try (destruct j; discriminate);
      injection Hi as Er; injection Hj as Es; subst r s;
      cbn [fst snd] in *; lia.
  - intros x Hx. unfold in_range.
    destruct (Z_lt_le_dec x c) as [H1|H1].
    + exists (0, c - 1). cbn [fst snd In]. split; [auto | lia].
    + destruct (Z_lt_le_dec x d) as [H2|H2].
      * exists (c, c + c - 1). cbn [fst snd In]. split; [auto | lia].
      * exists (d, total). cbn [fst snd In]. split; [auto | lia].
Qed.

(** ** C8 *)

(** C8.  With three blocks and a content length of 3000 the loop of
    [download_chunks] plans exactly the ranges (0, 999), (1000, 1999) and
    (2000, 3000), in that order, and these are the ranges the transfer
    requests of the server, whatever the server and the world are. *)
Theorem planned_ranges_3000_in_three :
  planned_ranges 3 3000 = [ (0, 999); (1000, 1999); (2000, 3000) ]
  /\ forall BLOCK_SIZE REPO_URL TEMP_DIR session w,
       requested_ranges
         (trace (snd (download_chunks BLOCK_SIZE 3 REPO_URL TEMP_DIR session
                                      3000 w)))
       = requested_ranges (trace w)
         ++ [ "bytes=0-999"; "bytes=1000-1999"; "bytes=2000-3000" ].
Proof.
  split; [reflexivity | ].
  intros. rewrite download_chunks_requests by discriminate. reflexivity.
Qed.

(** ** C2 and C3: the index of the adjusted segment *)

(** C2.  The loop adjusts the segment at index 2 whatever the number of
    blocks is.  With four blocks over 8 bytes the third and the fourth range
    share the offsets 6 and 7; with two blocks over 5 bytes no range holds
    the offset 4. *)
Theorem planned_ranges_overlap_and_gap :
  planned_ranges 4 8 = [ (0, 1); (2, 3); (4, 8); (6, 7) ]
  /\ ~ pairwise_disjoint (planned_ranges 4 8)
  /\ planned_ranges 2 5 = [ (0, 1); (2, 3) ]
  /\ ~ covers (planned_ranges 2 5) 5.
Proof.
  split; [reflexivity | split; [ | split; [reflexivity | ] ] ].
  - intro H.
    apply (H 2%nat 3%nat (4, 8) (6, 7)); [lia | reflexivity | reflexivity | ].
    exists 6. unfold in_range. simpl. lia.
  - intro H. destruct (H 4) as [r [Hin Hr]]; [lia | ].
    unfold in_range in Hr.
    simpl in Hin. destruct Hin as [E | [E | []]]; subst r; simpl in Hr; lia.
Qed.

(** C3.  The segment whose end is set to the content length is the one at
    index 2, not the last one: with four blocks over 8 bytes the last
    segment (index 3) ends at 7, its start plus the chunk size minus one,
    while the segment at index 2 ends at 8; with two blocks over 5 bytes the
    last segment (index 1) ends at 3 and the offset 4 of the remainder is in
    no range. *)
Theorem adjusted_segment_is_index_two :
  end_at (planned_ranges 4 8) 3 = Some 7
  /\ end_at (planned_ranges 4 8) 2 = Some 8
  /\ end_at (planned_ranges 2 5) 1 = Some 3
  /\ (forall r, In r (planned_ranges 2 5) -> snd r <> 5).
Proof.
  repeat split; try reflexivity.
  intros r Hin. simpl in Hin.
  destruct Hin as [E | [E | []]]; subst r; simpl; lia.
Qed.

(** Whatever the number of blocks, the end of a segment is the content
    length exactly when its index is 2 or when the unadjusted end happens to
    be the content length. *)
Lemma chunk_bounds_end (total size i : Z) :
  snd (chunk_bounds total size i)
  = if i =? 2 then total else i * size + size - 1.
Proof. unfold chunk_bounds. destruct (i =? 2); reflexivity. Qed.

(* ================================================================== *)
(** ** The session, stage by stage *)

Section SessionStages.

Variables BLOCK_SIZE NUM_OF_BLOCKS : Z.
Variables REPO_URL TEMP_DIR : string.
Variable session : remote.

Local Abbreviation get_content_length' :=
  (get_content_length REPO_URL session).
Local Abbreviation create_temp_dir' :=
  (create_temp_dir TEMP_DIR session).
Local Abbreviation download_chunks' :=
  (download_chunks BLOCK_SIZE NUM_OF_BLOCKS REPO_URL TEMP_DIR session).
Local Abbreviation compute_file_hashes' :=
  (compute_file_hashes TEMP_DIR).
Local Abbreviation download_repo' :=
  (download_repo BLOCK_SIZE NUM_OF_BLOCKS REPO_URL TEMP_DIR session).





End SessionStages.

(** ** C6, on a session whose four stages all run *)


(* ================================================================== *)
(** ** Further properties: what [download_chunk] leaves on disk *)

Lemma find_node_set_node_same path n fs :
  find_node path (set_node path n fs) = Some n.
Proof.
  induction fs as [|[p m] fs IH]; cbn [set_node find_node].
  - now rewrite String.eqb_refl.
  - destruct (String.eqb path p) eqn:E; cbn [find_node]; rewrite E.
    + reflexivity.
    + exact IH.
Qed.

Lemma find_node_set_node_other path q n fs :
  q <> path -> find_node q (set_node path n fs) = find_node q fs.
Proof.
  intro Hq. induction fs as [|[p m] fs IH]; cbn [set_node find_node].
  - apply String.eqb_neq in Hq. now rewrite Hq.
  - destruct (String.eqb path p) eqn:E; cbn [find_node].
    + apply String.eqb_eq in E. subst p.
      apply String.eqb_neq in Hq. now rewrite Hq.
    + destruct (String.eqb q p); [reflexivity | exact IH].
Qed.

Lemma concat_chunks_cons (c0 chunk : list byte) chunks :
  (c0 ++ chunk) ++ List.concat chunks = c0 ++ List.concat (chunk :: chunks).
Proof. cbn [List.concat]. now rewrite app_assoc. Qed.

(** Writing a stream of chunks to an open file appends them in order,
    whether or not the stream ends in a failure, and touches nothing
    else. *)
Lemma write_chunks_appends file chunks failure :
  forall w c0,
    node_at file w = Some (Regular c0) ->
    fst (write_chunks file chunks failure w)
    = match failure with
      | Some e => Raise e
      | None => Ok tt
      end
    /\ node_at file (snd (write_chunks file chunks failure w))
       = Some (Regular (c0 ++ List.concat chunks))
    /\ (forall q, q <> file ->
          node_at q (snd (write_chunks file chunks failure w)) = node_at q w)
    /\ log (snd (write_chunks file chunks failure w)) = log w
    /\ dirs (snd (write_chunks file chunks failure w)) = dirs w.
Proof.
  unfold node_at.
  induction chunks as [|chunk chunks IH]; intros w c0 Hf; cbn [write_chunks].
  - cbn [List.concat]. rewrite app_nil_r.
    destruct failure; cbn; repeat split; auto.
  - set (w1 := with_files (set_node file (Regular (c0 ++ chunk)) (files w))
                         (add_event (Write file chunk) w)).
    assert (Hstep : (file_write file chunk ;;
                     write_chunks file chunks failure) w
                    = write_chunks file chunks failure w1).
    { unfold file_write, emit, bind. cbn [add_event files]. rewrite Hf.
      reflexivity. }
    rewrite Hstep.
    destruct (IH w1 (c0 ++ chunk)) as [H1 [H2 [H3 [H4 H5]]]].
    { cbn [with_files files]. apply find_node_set_node_same. }
    rewrite H1, H2, H4, H5, concat_chunks_cons.
    repeat split; auto.
    intros q Hq. rewrite (H3 q Hq). unfold w1. cbn [with_files files].
    apply find_node_set_node_other. exact Hq.
Qed.

Lemma missing_is_OSError path w : isinstance_OSError (missing path w) = true.
Proof. unfold missing. destruct (below_a_file path w); reflexivity. Qed.

Lemma open_wb_writable path w :
  writable path w = true ->
  open_wb path w
  = (Ok path,
     with_files (set_node path (Regular []) (files w))
                (add_event (OpenWrite path) w)).
Proof.
  unfold writable, open_wb, emit, bind. intro H.
  apply andb_true_iff in H. destruct H as [Hd Hn].
  change (in_some_dir path (add_event (OpenWrite path) w))
    with (in_some_dir path w).
  change (files (add_event (OpenWrite path) w)) with (files w).
  rewrite Hd.
  destruct (find_node path (files w)) as [[c| | |]|];
    try discriminate; reflexivity.
Qed.

Lemma open_wb_unwritable path w :
  writable path w = false ->
  exists e,
    open_wb path w = (Raise e, add_event (OpenWrite path) w)
    /\ isinstance_OSError e = true.
Proof.
  unfold writable, open_wb, emit, bind. intro H.
  change (in_some_dir path (add_event (OpenWrite path) w))
    with (in_some_dir path w).
  change (files (add_event (OpenWrite path) w)) with (files w).
  destruct (in_some_dir path w); cbn [andb] in H.
  - destruct (find_node path (files w)) as [[c| | |]|];
      try discriminate; eexists; split; reflexivity.
  - eexists; split; [reflexivity | ].
    apply (missing_is_OSError path (add_event (OpenWrite path) w)).
Qed.

Section Artifacts.

Variables BLOCK_SIZE : Z.
Variables REPO_URL : string.
Variable session : remote.

Local Abbreviation download_chunk' :=
  (download_chunk BLOCK_SIZE REPO_URL session).
Local Abbreviation download_chunk_try' :=
  (download_chunk_try BLOCK_SIZE REPO_URL session).

(** The [try] block, when the server answers and the artifact can be
    opened. *)
Lemma download_chunk_try_served start end_ temp_dir w r chunks failure :
  http_get session REPO_URL [("Range", range_header start end_)] = Ok r ->
  iter_chunked r BLOCK_SIZE = (chunks, failure) ->
  writable (artifact_path temp_dir start end_) w = true ->
  let run := download_chunk_try' [("Range", range_header start end_)]
                                 start end_ temp_dir w in
  fst run = match failure with
            | Some e => Raise e
            | None => Ok tt
            end
  /\ node_at (artifact_path temp_dir start end_) (snd run)
     = Some (Regular (List.concat chunks))
  /\ (forall q, q <> artifact_path temp_dir start end_ ->
        node_at q (snd run) = node_at q w)
  /\ log (snd run) = log w
  /\ dirs (snd run) = dirs w.
Proof.
  intros Hg Hc Hw. cbv zeta.
  unfold download_chunk_try. rewrite bind_session_get, Hg.
  unfold bind at 1 3 5 7 9, lift. rewrite format_artifact.
  fold (artifact_path temp_dir start end_).
  unfold bind. rewrite open_wb_writable, Hc.
  2:{ exact Hw. }
  set (w1 := with_files _ _).
  destruct (write_chunks_appends (artifact_path temp_dir start end_)
              chunks failure w1 [])
    as [H1 [H2 [H3 [H4 H5]]]].
  { unfold node_at, w1. cbn [with_files files].
    apply find_node_set_node_same. }
  rewrite H1, H2, H4, H5. cbn [app].
  repeat split; auto.
  intros q Hq. rewrite (H3 q Hq). unfold node_at, w1.
  cbn [with_files files add_event].
  apply find_node_set_node_other. exact Hq.
Qed.


(** X2.  When the body breaks off with an error after some chunks,
    [download_chunk] still returns normally: the chunks received before the
    error stay in the artifact, which is not removed, and the error is
    logged. *)
Theorem download_chunk_keeps_partial_body
        start end_ temp_dir w r chunks e :
  http_get session REPO_URL [("Range", range_header start end_)] = Ok r ->
  iter_chunked r BLOCK_SIZE = (chunks, Some e) ->
  writable (artifact_path temp_dir start end_) w = true ->
  let run := download_chunk' start end_ temp_dir w in
  fst run = Ok tt
  /\ node_at (artifact_path temp_dir start end_) (snd run)
     = Some (Regular (List.concat chunks))
  /\ log (snd run)
     = log w ++ [(ERROR, ("Failed to download chunk: " ++ str_exn e)%string)].
Proof.
  intros Hg Hc Hw. cbv zeta. rewrite download_chunk_unfold.
  destruct (download_chunk_try_served start end_ temp_dir w r chunks (Some e)
              Hg Hc Hw) as [H1 [H2 [H3 [H4 _]]]].
  destruct (download_chunk_try' _ start end_ temp_dir w) as [[[]|e'] w1];
    cbn [fst snd] in *; [discriminate H1 | ].
  injection H1 as ->.
  repeat split; auto.
  cbn [log_error log]. now rewrite H4.
Qed.

(** The [try] block, when the request fails and when the artifact cannot
    be opened. *)
Lemma download_chunk_try_refused start end_ temp_dir w e :
  http_get session REPO_URL [("Range", range_header start end_)] = Raise e ->
  download_chunk_try' [("Range", range_header start end_)]
                      start end_ temp_dir w
  = (Raise e,
     add_event (Get REPO_URL [("Range", range_header start end_)]) w).
Proof.
  intro Hg. unfold download_chunk_try. now rewrite bind_session_get, Hg.
Qed.

Lemma download_chunk_try_unwritable start end_ temp_dir w r :
  http_get session REPO_URL [("Range", range_header start end_)] = Ok r ->
  writable (artifact_path temp_dir start end_) w = false ->
  exists e,
    isinstance_OSError e = true
    /\ download_chunk_try' [("Range", range_header start end_)]
                           start end_ temp_dir w
       = (Raise e,
          add_event (OpenWrite (artifact_path temp_dir start end_))
            (add_event (Get REPO_URL
                            [("Range", range_header start end_)]) w)).
Proof.
  intros Hg Hw.
  unfold download_chunk_try. rewrite bind_session_get, Hg.
  unfold bind at 1, lift. rewrite format_artifact.
  fold (artifact_path temp_dir start end_).
  unfold bind.
  destruct (open_wb_unwritable (artifact_path temp_dir start end_)
              (add_event (Get REPO_URL [("Range", range_header start end_)])
                         w)) as [e [Ho He]].
  { exact Hw. }
  rewrite Ho. exists e. split; [exact He | reflexivity].
Qed.

(** X3.  When the request itself fails, [download_chunk] opens no file: the
    files are as they were, the only call is the request, and the error is
    logged. *)
Theorem download_chunk_request_failure start end_ temp_dir w e :
  http_get session REPO_URL [("Range", range_header start end_)] = Raise e ->
  download_chunk' start end_ temp_dir w
  = (Ok tt,
     log_error ("Failed to download chunk: " ++ str_exn e)
       (add_event (Get REPO_URL [("Range", range_header start end_)]) w)).
Proof.
  intro Hg. rewrite download_chunk_unfold.
  now rewrite (download_chunk_try_refused start end_ temp_dir w e Hg).
Qed.

(** X4.  When the artifact cannot be opened for writing (the directory is
    missing, or the path holds a directory or a file that refuses access),
    [download_chunk] logs the error of [open], an [OSError], and changes no
    file. *)
Theorem download_chunk_unwritable start end_ temp_dir w r :
  http_get session REPO_URL [("Range", range_header start end_)] = Ok r ->
  writable (artifact_path temp_dir start end_) w = false ->
  exists e,
    isinstance_OSError e = true
    /\ download_chunk' start end_ temp_dir w
       = (Ok tt,
          log_error ("Failed to download chunk: " ++ str_exn e)
            (add_event (OpenWrite (artifact_path temp_dir start end_))
               (add_event (Get REPO_URL
                               [("Range", range_header start end_)]) w))).
Proof.
  intros Hg Hw. rewrite download_chunk_unfold.
  destruct (download_chunk_try_unwritable start end_ temp_dir w r Hg Hw)
    as [e [He Ht]].
  rewrite Ht. exists e. split; [exact He | reflexivity].
Qed.

(** What a call of [download_chunk] leaves alone. *)
Lemma download_chunk_frame start end_ temp_dir w :
  (forall q, q <> artifact_path temp_dir start end_ ->
     node_at q (snd (download_chunk' start end_ temp_dir w)) = node_at q w)
  /\ dirs (snd (download_chunk' start end_ temp_dir w)) = dirs w.
Proof.
  rewrite download_chunk_unfold.
  destruct (http_get session REPO_URL [("Range", range_header start end_)])
    as [r|e] eqn:Hg.
  - destruct (writable (artifact_path temp_dir start end_) w) eqn:Hw.
    + destruct (iter_chunked r BLOCK_SIZE) as [chunks failure] eqn:Hc.
      destruct (download_chunk_try_served start end_ temp_dir w r chunks
                  failure Hg Hc Hw) as [_ [_ [H3 [_ H5]]]].
      destruct (download_chunk_try' _ start end_ temp_dir w)
        as [[[]|e'] w1]; cbn [fst snd] in *; split; auto.
    + destruct (download_chunk_try_unwritable start end_ temp_dir w r Hg Hw)
        as [e [_ He]].
      rewrite He. split; auto.
  - rewrite (download_chunk_try_refused start end_ temp_dir w e Hg).
    split; auto.
Qed.


End Artifacts.

(* ================================================================== *)
(** ** Further properties: the names of the artifacts *)

Lemma string_of_uint_numeral (d : Decimal.uint) :
  string_forall numeral_char (NilEmpty.string_of_uint d) = true.
Proof. induction d; cbn; auto. Qed.

Lemma string_of_Z_numeral (z : Z) :
  string_forall numeral_char (string_of_Z z) = true.
Proof.
  unfold string_of_Z, NilZero.string_of_int, NilZero.string_of_uint.
  destruct (Z.to_int z) as [d|d]; destruct d;
    try reflexivity;
    cbn [string_forall andb]; cbn;
    apply string_of_uint_numeral.
Qed.

Lemma to_uint_not_nil (p : positive) : Pos.to_uint p <> Decimal.Nil.
Proof.
  intro H.
  pose proof (DecimalPos.Unsigned.of_to p) as Hp.
  rewrite H in Hp. discriminate Hp.
Qed.

Lemma string_of_Z_inj (z z' : Z) : string_of_Z z = string_of_Z z' -> z = z'.
Proof.
  unfold string_of_Z. intro H. apply DecimalZ.to_int_inj.
  assert (Hn : forall n, Z.to_int n <> Decimal.Pos Decimal.Nil
                         /\ Z.to_int n <> Decimal.Neg Decimal.Nil).
  { intros [|p|p]; split; cbn; try discriminate;
      intro E; injection E as E; exact (to_uint_not_nil p E). }
  destruct (Hn z) as [Hz1 Hz2]. destruct (Hn z') as [Hz1' Hz2'].
  pose proof (NilZero.isi _ Hz1 Hz2) as E.
  pose proof (NilZero.isi _ Hz1' Hz2') as E'.
  rewrite H in E. rewrite E in E'. now injection E'.
Qed.

(** Two texts made of a numeral, an underscore and a rest are equal only
    if the numerals and the rests are. *)
Lemma numeral_underscore_split (a a' b b' : string) :
  string_forall numeral_char a = true ->
  string_forall numeral_char a' = true ->
  (a ++ "_" ++ b)%string = (a' ++ "_" ++ b')%string ->
  a = a' /\ b = b'.
Proof.
  revert a'. induction a as [|c a IH]; intros [|c' a'] Ha Ha' H;
    cbn [String.append string_forall] in *.
  - injection H as H. auto.
  - injection H as Hc _. subst c'.
    apply andb_true_iff in Ha'. destruct Ha' as [Hc _]. discriminate Hc.
  - injection H as Hc _. subst c.
    apply andb_true_iff in Ha. destruct Ha as [Hc _]. discriminate Hc.
  - injection H as Hc H. subst c'.
    apply andb_true_iff in Ha. apply andb_true_iff in Ha'.
    destruct (IH a' (proj2 Ha) (proj2 Ha') H) as [-> ->]. auto.
Qed.

Lemma artifact_name_inj start end_ start' end_' :
  artifact_name start end_ = artifact_name start' end_' ->
  start = start' /\ end_ = end_'.
Proof.
  unfold artifact_name. cbn [String.append]. intro H.
  injection H as H.
  destruct (numeral_underscore_split _ _ _ _
              (string_of_Z_numeral start) (string_of_Z_numeral start') H)
    as [Hs He].
  split; apply string_of_Z_inj; assumption.
Qed.

Lemma has_slash_numeral (s : string) :
  string_forall numeral_char s = true -> has_slash s = false.
Proof.
  induction s as [|c s IH]; cbn [string_forall has_slash]; [reflexivity | ].
  intro H. apply andb_true_iff in H. destruct H as [Hc Hs].
  rewrite (IH Hs), orb_false_r.
  destruct (Ascii.eqb_spec c "/"%char) as [->|_]; [discriminate Hc | reflexivity].
Qed.

Lemma has_slash_app (a b : string) :
  has_slash (a ++ b)%string = orb (has_slash a) (has_slash b).
Proof.
  induction a as [|c a IH]; cbn [String.append has_slash]; [reflexivity | ].
  now rewrite IH, orb_assoc.
Qed.

Lemma artifact_name_no_slash start end_ :
  has_slash (artifact_name start end_) = false.
Proof.
  unfold artifact_name.
  rewrite !has_slash_app,
    (has_slash_numeral _ (string_of_Z_numeral start)),
    (has_slash_numeral _ (string_of_Z_numeral end_)).
  reflexivity.
Qed.

Lemma strip_prefix_app (pre s : string) :
  strip_prefix pre (pre ++ s)%string = Some s.
Proof.
  induction pre as [|c pre IH]; cbn [String.append strip_prefix].
  - reflexivity.
  - now rewrite Ascii.eqb_refl.
Qed.

Lemma string_app_assoc (a b c : string) :
  ((a ++ b) ++ c)%string = (a ++ b ++ c)%string.
Proof.
  induction a as [|x a IH]; cbn [String.append]; [reflexivity | ].
  now rewrite IH.
Qed.

Lemma string_app_inv_head (a b c : string) :
  (a ++ b)%string = (a ++ c)%string -> b = c.
Proof.
  induction a as [|x a IH]; cbn [String.append]; intro H.
  - exact H.
  - injection H as H. exact (IH H).
Qed.

(** What [os.path.join] does with a name that is not an absolute path. *)
Lemma os_path_join_relative dir name :
  starts_with_slash name = false ->
  os_path_join dir name = (os_path_join dir EmptyString ++ name)%string.
Proof.
  intro Hn. unfold os_path_join. rewrite Hn. cbn [starts_with_slash].
  destruct dir as [|c dir]; [reflexivity | ].
  destruct (ends_with_slash (String c dir)).
  - now rewrite append_empty.
  - now rewrite !string_app_assoc.
Qed.

(** A name without a slash, joined to a directory, is an entry of that
    directory under that name. *)
Lemma entry_name_join dir c name :
  has_slash (String c name) = false ->
  entry_name dir (os_path_join dir (String c name)) = Some (String c name).
Proof.
  intro Hs. unfold entry_name.
  rewrite (os_path_join_relative dir (String c name)).
  - rewrite strip_prefix_app, Hs. reflexivity.
  - cbn [has_slash starts_with_slash] in *.
    apply orb_false_iff in Hs. exact (proj1 Hs).
Qed.

Lemma entry_name_artifact dir start end_ :
  entry_name dir (artifact_path dir start end_)
  = Some (artifact_name start end_).
Proof.
  pose proof (artifact_name_no_slash start end_) as Hs.
  unfold artifact_path. revert Hs. unfold artifact_name at 1 2 3.
  cbn [String.append]. intro Hs.
  rewrite (entry_name_join dir _ _ Hs). reflexivity.
Qed.

Lemma artifact_path_inj dir start end_ start' end_' :
  artifact_path dir start end_ = artifact_path dir start' end_' ->
  (start, end_) = (start', end_').
Proof.
  unfold artifact_path. intro H.
  rewrite (os_path_join_relative dir (artifact_name start end_)),
    (os_path_join_relative dir (artifact_name start' end_')) in H
    by reflexivity.
  apply string_app_inv_head in H.
  destruct (artifact_name_inj _ _ _ _ H) as [-> ->]. reflexivity.
Qed.

Lemma subdirs_set_node_regular path c fs :
  find_node path fs <> Some Subdir ->
  subdirs (set_node path (Regular c) fs) = subdirs fs.
Proof.
  unfold subdirs.
  induction fs as [|[p n] fs IH]; cbn [set_node find_node flat_map];
    intro H.
  - reflexivity.
  - destruct (String.eqb path p).
    + cbn [flat_map snd fst]. destruct n; try reflexivity.
      exfalso. apply H. reflexivity.
    + cbn [flat_map]. now rewrite (IH H).
Qed.

Lemma open_wb_keeps_subdirs path : keeps subdirs_of (open_wb path).
Proof.
  intro w. unfold open_wb, emit, bind, subdirs_of.
  change (in_some_dir path (add_event (OpenWrite path) w))
    with (in_some_dir path w).
  change (files (add_event (OpenWrite path) w)) with (files w).
  destruct (in_some_dir path w); [ | reflexivity].
  destruct (find_node path (files w)) as [[c| | |]|] eqn:E;
    try reflexivity;
    cbn [snd with_files files];
    apply subdirs_set_node_regular; rewrite E; discriminate.
Qed.

Lemma file_write_keeps_subdirs file chunk :
  keeps subdirs_of (file_write file chunk).
Proof.
  intro w. unfold file_write, emit, bind, subdirs_of.
  change (files (add_event (Write file chunk) w)) with (files w).
  destruct (find_node file (files w)) as [[c| | |]|] eqn:E;
    try reflexivity.
  cbn [snd with_files files].
  apply subdirs_set_node_regular. rewrite E. discriminate.
Qed.

Lemma emit_keeps_subdirs ev : keeps subdirs_of (emit ev).
Proof. intro w. reflexivity. Qed.

Lemma logger_error_keeps_subdirs msg : keeps subdirs_of (logger_error msg).
Proof. intro w. reflexivity. Qed.

#[export] Hint Resolve open_wb_keeps_subdirs file_write_keeps_subdirs
  emit_keeps_subdirs logger_error_keeps_subdirs : effects.

Lemma write_chunks_keeps_subdirs file chunks failure :
  keeps subdirs_of (write_chunks file chunks failure).
Proof.
  induction chunks as [|chunk chunks IH]; cbn [write_chunks]; effects.
Qed.

#[export] Hint Resolve write_chunks_keeps_subdirs : effects.

Lemma download_chunk_keeps_subdirs BLOCK_SIZE REPO_URL session
      start end_ temp_dir :
  keeps subdirs_of
        (download_chunk BLOCK_SIZE REPO_URL session start end_ temp_dir).
Proof.
  unfold download_chunk, download_chunk_try, session_get. effects.
Qed.

Lemma run_tasks_keeps A B (f : world -> B) (tasks : list (M A)) :
  Forall (keeps f) tasks -> forall w, f (snd (run_tasks tasks w)) = f w.
Proof.
  induction 1 as [|t tasks Ht _ IH]; intro w; cbn [run_tasks].
  - reflexivity.
  - specialize (Ht w). destruct (t w) as [r w1]. cbn [snd] in Ht.
    specialize (IH w1). destruct (run_tasks tasks w1) as [rs w2].
    cbn [snd] in *. now rewrite IH.
Qed.

Lemma directories_frame w w' :
  dirs w' = dirs w -> subdirs_of w' = subdirs_of w ->
  directories w' = directories w.
Proof. unfold directories, subdirs_of. now intros -> ->. Qed.


Lemma is_dir_frame path w w' :
  directories w' = directories w -> is_dir path w' = is_dir path w.
Proof. unfold is_dir. now intros ->. Qed.


(** An artifact can be written when its directory exists and its path
    holds nothing, or a regular file. *)
Lemma writable_in_dir dir start end_ w :
  is_dir dir w = true ->
  match node_at (artifact_path dir start end_) w with
  | None | Some (Regular _) => true
  | Some _ => false
  end = true ->
  writable (artifact_path dir start end_) w = true.
Proof.
  unfold writable, node_at, is_dir, in_some_dir. intros Hd Hn.
  replace (match find_node (artifact_path dir start end_) (files w) with
           | None | Some (Regular _) | Some Dangling => true
           | Some _ => false
           end) with true
    by (destruct (find_node (artifact_path dir start end_) (files w))
          as [[c| | |]|]; try reflexivity; discriminate Hn).
  rewrite andb_true_r.
  apply existsb_exists in Hd. destruct Hd as [d [Hin Hd]].
  apply String.eqb_eq in Hd. subst d.
  apply existsb_exists. exists dir. split; [exact Hin | ].
  now rewrite entry_name_artifact.
Qed.

Lemma find_node_in path n fs :
  find_node path fs = Some n -> In (path, n) fs.
Proof.
  induction fs as [|[p m] fs IH]; cbn [find_node]; [discriminate | ].
  destruct (String.eqb_spec path p) as [->|_].
  - intro H. injection H as ->. now left.
  - intro H. right. exact (IH H).
Qed.

(** A path that holds something is listed in its directory. *)
Lemma dir_entries_holds dir path name n w :
  node_at path w = Some n ->
  entry_name dir path = Some name ->
  In name (dir_entries dir w).
Proof.
  unfold node_at, dir_entries. intros Hn He.
  apply in_flat_map. exists (path, n).
  split; [exact (find_node_in _ _ _ Hn) | ].
  cbn [fst]. rewrite He. now left.
Qed.

(** X7.  The path of an artifact determines its range, and the range the
    path: two calls of [download_chunk] into a directory write to the same
    file exactly when they are for the same range. *)
Theorem artifact_path_determines_range dir start end_ start' end_' :
  artifact_path dir start end_ = artifact_path dir start' end_'
  <-> start = start' /\ end_ = end_'.
Proof.
  split.
  - intro H. apply artifact_path_inj in H. injection H as -> ->. auto.
  - intros [-> ->]. reflexivity.
Qed.

Section ArtifactsInDirectory.

Variables BLOCK_SIZE : Z.
Variables REPO_URL : string.
Variable session : remote.

Local Abbreviation download_chunk' :=
  (download_chunk BLOCK_SIZE REPO_URL session).

(** X6.  When the server answers the request and the directory exists, the
    artifact, whether the body came whole or broke off, is an entry of the
    directory under its name: a listing of the directory made afterwards
    returns it. *)
Theorem download_chunk_artifact_is_listed start end_ temp_dir w r :
  http_get session REPO_URL [("Range", range_header start end_)] = Ok r ->
  is_dir temp_dir w = true ->
  match node_at (artifact_path temp_dir start end_) w with
  | None | Some (Regular _) => true
  | Some _ => false
  end = true ->
  let w' := snd (download_chunk' start end_ temp_dir w) in
  exists names,
    fst (os_listdir temp_dir w') = Ok names
    /\ In (artifact_name start end_) names.
Proof.
  intros Hg Hd Hn. cbv zeta.
  pose proof (writable_in_dir temp_dir start end_ w Hd Hn) as Hw.
  destruct (iter_chunked r BLOCK_SIZE) as [chunks failure] eqn:Hc.
  destruct (download_chunk_try_served BLOCK_SIZE REPO_URL session
              start end_ temp_dir w r chunks failure Hg Hc Hw)
    as [_ [H2 _]].
  destruct (download_chunk_frame BLOCK_SIZE REPO_URL session
              start end_ temp_dir w) as [_ H5].
  pose proof (download_chunk_keeps_subdirs BLOCK_SIZE REPO_URL session
                start end_ temp_dir w) as H6.
  assert (Hnode : node_at (artifact_path temp_dir start end_)
                          (snd (download_chunk' start end_ temp_dir w))
                  = Some (Regular (List.concat chunks))).
  { rewrite download_chunk_unfold.
    destruct (download_chunk_try BLOCK_SIZE REPO_URL session _
                                 start end_ temp_dir w) as [[[]|e] w1];
      exact H2. }
  set (w' := snd (download_chunk' start end_ temp_dir w)) in *.
  assert (Hdir : is_dir temp_dir w' = true).
  { rewrite (is_dir_frame temp_dir w w' (directories_frame w w' H5 H6)).
    exact Hd. }
  exists (dir_entries temp_dir w').
  unfold os_listdir, bind, emit.
  change (is_dir temp_dir (add_event (Listdir temp_dir) w'))
    with (is_dir temp_dir w').
  rewrite Hdir. cbn [fst].
  split; [reflexivity | ].
  exact (dir_entries_holds _ _ _ _ _ Hnode
           (entry_name_artifact temp_dir start end_)).
Qed.

End ArtifactsInDirectory.

(* ================================================================== *)
(** ** Further properties: what the transfer leaves on disk *)

Section TransferOnDisk.

Variables BLOCK_SIZE NUM_OF_BLOCKS : Z.
Variables REPO_URL TEMP_DIR : string.
Variable session : remote.

Local Abbreviation download_chunk' :=
  (download_chunk BLOCK_SIZE REPO_URL session).
Local Abbreviation download_chunks' :=
  (download_chunks BLOCK_SIZE NUM_OF_BLOCKS REPO_URL TEMP_DIR session).
Local Abbreviation path_of :=
  (fun r : Z * Z => artifact_path TEMP_DIR (fst r) (snd r)).
Local Abbreviation task_of :=
  (fun r : Z * Z => download_chunk' (fst r) (snd r) TEMP_DIR).

(** The tasks of a list of ranges leave alone every path that is not the
    artifact of one of the ranges, and the directories. *)
Lemma run_tasks_frame (ranges : list (Z * Z)) :
  forall w,
    (forall q, (forall r, In r ranges -> q <> path_of r) ->
       node_at q (snd (run_tasks (map task_of ranges) w)) = node_at q w)
    /\ dirs (snd (run_tasks (map task_of ranges) w)) = dirs w.
Proof.
  induction ranges as [|r ranges IH]; intro w; cbn [map run_tasks].
  - split; reflexivity.
  - destruct (download_chunk_frame BLOCK_SIZE REPO_URL session
                (fst r) (snd r) TEMP_DIR w) as [Hf Hd].
    destruct (download_chunk' (fst r) (snd r) TEMP_DIR w) as [v w1].
    cbn [snd] in Hf, Hd.
    destruct (IH w1) as [If Id].
    destruct (run_tasks (map task_of ranges) w1) as [rs w2].
    cbn [snd] in *. split.
    + intros q Hq. rewrite If.
      * apply Hf. apply Hq. now left.
      * intros r' Hr'. apply Hq. now right.
    + now rewrite Id.
Qed.

(** What [download_chunks] does, when the number of blocks is not zero. *)
Lemma download_chunks_unfold content_length w :
  NUM_OF_BLOCKS <> 0 ->
  download_chunks' content_length w
  = (Ok true,
     snd (run_tasks (map task_of (planned_ranges NUM_OF_BLOCKS content_length))
                    w)).
Proof.
  intro Hn. unfold download_chunks, planned_ranges.
  unfold bind at 1, lift, floordiv.
  destruct (Z.eqb_spec NUM_OF_BLOCKS 0) as [E|_]; [contradiction | ].
  rewrite download_chunks_tasks.
  pose proof (gather_download_chunks BLOCK_SIZE REPO_URL session
                (map (chunk_bounds content_length
                                   (content_length / NUM_OF_BLOCKS))
                     (py_range NUM_OF_BLOCKS)) TEMP_DIR w) as Hg.
  unfold try_except, bind, gather in *.
  destruct (run_tasks _ w) as [rs w1]. cbn [fst snd] in *.
  rewrite Hg. reflexivity.
Qed.






End TransferOnDisk.

(* ================================================================== *)
(** ** Further properties: size discovery *)

Lemma literal_value_acc (d : Decimal.uint) :
  forall acc : positive,
    literal_value (NilEmpty.string_of_uint d) (Z.pos acc) true
    = Some (Z.pos (Pos.of_uint_acc d acc)).
Proof.
  induction d; intro acc;
    cbn [NilEmpty.string_of_uint literal_value Pos.of_uint_acc];
    try reflexivity;
    match goal with
    | |- context [Format.digit_of ?c] =>
        let v := eval cbv in (Format.digit_of c) in
        change (Format.digit_of c) with v
    end;
    cbv iota beta;
    match goal with
    | |- literal_value _ ?a true = Some (Z.pos (Pos.of_uint_acc _ ?b)) =>
        replace a with (Z.pos b) by lia
    end;
    apply IHd.
Qed.

Lemma literal_value_uint (d : Decimal.uint) :
  literal_value (NilEmpty.string_of_uint d) 0 true
  = Some (Z.of_N (Pos.of_uint d)).
Proof.
  induction d;
    cbn [NilEmpty.string_of_uint literal_value Pos.of_uint];
    try reflexivity;
    match goal with
    | |- context [Format.digit_of ?c] =>
        let v := eval cbv in (Format.digit_of c) in
        change (Format.digit_of c) with v
    end;
    cbv iota beta;
    [ exact IHd | .. ];
    match goal with
    | |- literal_value _ ?a true
         = Some (Z.of_N (N.pos (Pos.of_uint_acc _ ?b))) =>
        replace a with (Z.pos b) by lia
    end;
    apply literal_value_acc.
Qed.

(** The digits of a numeral that is not empty are read from their first
    character on. *)
Lemma literal_value_start (d : Decimal.uint) :
  d <> Decimal.Nil ->
  literal_value (NilEmpty.string_of_uint d) 0 false
  = Some (Z.of_N (Pos.of_uint d)).
Proof.
  intro Hd. destruct d; [contradiction | ..];
    cbn [NilEmpty.string_of_uint literal_value Pos.of_uint];
    match goal with
    | |- context [Format.digit_of ?c] =>
        let v := eval cbv in (Format.digit_of c) in
        change (Format.digit_of c) with v
    end;
    cbv iota beta;
    [ exact (literal_value_uint d) | .. ];
    match goal with
    | |- literal_value _ ?a true
         = Some (Z.of_N (N.pos (Pos.of_uint_acc _ ?b))) =>
        replace a with (Z.pos b) by lia
    end;
    apply literal_value_acc.
Qed.

Lemma string_of_uint_nonempty (d : Decimal.uint) :
  d <> Decimal.Nil ->
  exists c rest,
    NilEmpty.string_of_uint d = String c rest
    /\ Format.digit_of c <> None.
Proof.
  destruct d; intro H; [contradiction | ..];
    cbn [NilEmpty.string_of_uint]; eexists; eexists;
    (split; [reflexivity | discriminate]).
Qed.

Lemma digit_is_no_sign c :
  Format.digit_of c <> None ->
  Ascii.eqb c "-"%char = false /\ Ascii.eqb c "+"%char = false.
Proof.
  intro Hc.
  destruct c as [[] [] [] [] [] [] [] []];
    try (split; reflexivity); exfalso; apply Hc; reflexivity.
Qed.

Lemma numeral_is_no_space c : numeral_char c = true -> is_space c = false.
Proof.
  destruct c as [[] [] [] [] [] [] [] []];
    try reflexivity; intro H; discriminate H.
Qed.

(** A numeral has no white space to strip. *)
Lemma lstrip_numeral s :
  string_forall numeral_char s = true -> lstrip s = s.
Proof.
  destruct s as [|c s]; [reflexivity | ].
  cbn [string_forall lstrip]. intro H.
  apply andb_true_iff in H. destruct H as [Hc _].
  now rewrite (numeral_is_no_space c Hc).
Qed.

Lemma rstrip_numeral s :
  string_forall numeral_char s = true -> rstrip s = s.
Proof.
  induction s as [|c s IH]; [reflexivity | ].
  cbn [string_forall rstrip]. intro H.
  apply andb_true_iff in H. destruct H as [Hc Hs].
  rewrite (IH Hs), (numeral_is_no_space c Hc).
  destruct s; reflexivity.
Qed.

Lemma strip_numeral s :
  string_forall numeral_char s = true -> strip s = s.
Proof.
  intro H. unfold strip. rewrite (lstrip_numeral s H).
  exact (rstrip_numeral s H).
Qed.

Lemma signed_literal_string_of_Z (n : Z) :
  signed_literal (string_of_Z n) = Some n.
Proof.
  unfold string_of_Z.
  destruct n as [|p|p]; [reflexivity | | ];
    cbn [Z.to_int NilZero.string_of_int];
    pose proof (to_uint_not_nil p) as Hp;
    pose proof (DecimalPos.Unsigned.of_to p) as Hv;
    pose proof (literal_value_start (Pos.to_uint p) Hp) as Hl;
    rewrite Hv in Hl;
    unfold NilZero.string_of_uint;
    destruct (Pos.to_uint p) eqn:E; try contradiction;
    match goal with
    | |- context [NilEmpty.string_of_uint ?d] =>
        destruct (string_of_uint_nonempty d ltac:(discriminate))
          as [c [rest [Hs Hc]]];
        rewrite Hs in *
    end.
  all: try (cbn [signed_literal];
            destruct (digit_is_no_sign c Hc) as [-> ->];
            exact Hl).
  all: cbn [signed_literal]; rewrite Ascii.eqb_refl, Hl; reflexivity.
Qed.

(** [int(str(n))] is [n]. *)
Lemma py_int_string_of_Z (n : Z) : py_int (VStr (string_of_Z n)) = Ok n.
Proof.
  unfold py_int.
  rewrite (strip_numeral _ (string_of_Z_numeral n)).
  now rewrite signed_literal_string_of_Z.
Qed.

Lemma py_int_str_error v e :
  py_int (VStr v) = Raise e -> e = invalid_literal v.
Proof.
  unfold py_int. destruct (signed_literal (strip v)); intro H.
  - discriminate H.
  - now injection H.
Qed.

Section SizeDiscoveryFurther.

Variables BLOCK_SIZE NUM_OF_BLOCKS : Z.
Variables REPO_URL TEMP_DIR : string.
Variable session : remote.

Local Abbreviation get_content_length' :=
  (get_content_length REPO_URL session).
Local Abbreviation download_repo' :=
  (download_repo BLOCK_SIZE NUM_OF_BLOCKS REPO_URL TEMP_DIR session).

Lemma get_content_length_header response v w :
  http_head session REPO_URL = Ok response ->
  headers_get "Content-Length" (VInt 0) (headers response) = VStr v ->
  get_content_length' w
  = (match py_int (VStr v) with
     | Ok n => Ok (Some n)
     | Raise e => Raise e
     end, add_event (Head REPO_URL) w).
Proof.
  intros Hh Hv.
  unfold get_content_length, try_except, session_head, bind, emit, lift.
  rewrite Hh, Hv.
  destruct (py_int (VStr v)) as [n|e] eqn:E; [reflexivity | ].
  rewrite (py_int_str_error v e E). reflexivity.
Qed.

(** X14.  A [Content-Length] header that holds the decimal writing of an
    integer is read back as that integer, negative ones included: the only
    call is the HEAD request and nothing is logged. *)
Theorem get_content_length_reads_header response n w :
  http_head session REPO_URL = Ok response ->
  headers_get "Content-Length" (VInt 0) (headers response)
  = VStr (string_of_Z n) ->
  get_content_length' w = (Ok (Some n), add_event (Head REPO_URL) w).
Proof.
  intros Hh Hv.
  rewrite (get_content_length_header response _ w Hh Hv).
  now rewrite py_int_string_of_Z.
Qed.

(** X15.  A [Content-Length] header that [int] cannot read makes the session
    end in a [ValueError]: [get_content_length] only catches connection
    errors and [download_repo] catches nothing, so the exception leaves
    [download_repo]; the only call made is the HEAD request and nothing is
    logged. *)
Theorem malformed_content_length_escapes response v e w :
  http_head session REPO_URL = Ok response ->
  headers_get "Content-Length" (VInt 0) (headers response) = VStr v ->
  py_int (VStr v) = Raise e ->
  exn_cls e = ValueError
  /\ download_repo' w = (Raise e, add_event (Head REPO_URL) w).
Proof.
  intros Hh Hv He. split.
  - now rewrite (py_int_str_error v e He).
  - rewrite download_repo_unfold.
    rewrite (get_content_length_header response v w Hh Hv), He.
    reflexivity.
Qed.

(** X16.  An exception of the HEAD request that is not a
    [ClientConnectorError] is not caught: it leaves [download_repo], nothing
    is logged, and no directory is created and nothing fetched. *)
Theorem other_head_errors_escape e w :
  http_head session REPO_URL = Raise e ->
  isinstance_ClientConnectorError e = false ->
  download_repo' w = (Raise e, add_event (Head REPO_URL) w).
Proof.
  intros Hh Hc. rewrite download_repo_unfold.
  unfold get_content_length, try_except, session_head, bind, emit, lift.
  rewrite Hh, Hc. reflexivity.
Qed.

End SizeDiscoveryFurther.

(* ================================================================== *)
(** ** Further properties: the destination directory *)

Section Destination.

Variables BLOCK_SIZE NUM_OF_BLOCKS : Z.
Variables REPO_URL TEMP_DIR : string.
Variable session : remote.

Local Abbreviation create_temp_dir' :=
  (create_temp_dir TEMP_DIR session).
Local Abbreviation download_repo' :=
  (download_repo BLOCK_SIZE NUM_OF_BLOCKS REPO_URL TEMP_DIR session).

Lemma is_dir_add_dir path w : is_dir path (add_dir path w) = true.
Proof.
  unfold is_dir, directories, add_dir. cbn [dirs files app existsb].
  now rewrite String.eqb_refl.
Qed.

(** X17.  When [create_temp_dir] returns [True] the destination exists, and
    a second call returns [True] after asking only whether it exists: it
    does not call [os.makedirs] again and changes nothing. *)
Theorem create_temp_dir_idempotent w :
  fst (create_temp_dir' w) = Ok true ->
  let w1 := snd (create_temp_dir' w) in
  path_exists TEMP_DIR w1 = true
  /\ create_temp_dir' w1 = (Ok true, add_event (PathExists TEMP_DIR) w1).
Proof.
  rewrite (create_temp_dir_unfold TEMP_DIR session w). cbv zeta.
  destruct (path_exists TEMP_DIR w) eqn:Hp.
  - intros _. cbn [snd].
    assert (H1 : path_exists TEMP_DIR (add_event (PathExists TEMP_DIR) w)
                 = true) by exact Hp.
    split; [exact H1 | ].
    rewrite (create_temp_dir_unfold TEMP_DIR session). cbv zeta.
    now rewrite H1.
  - destruct (makedirs_error session TEMP_DIR) as [e|].
    + destruct (isinstance_OSError e); cbn [fst]; discriminate.
    + intros _. cbn [snd].
      match goal with
      | |- path_exists _ ?w1 = true /\ _ =>
          assert (H1 : path_exists TEMP_DIR w1 = true)
      end.
      { unfold path_exists. rewrite is_dir_add_dir. reflexivity. }
      split; [exact H1 | ].
      rewrite (create_temp_dir_unfold TEMP_DIR session). cbv zeta.
      now rewrite H1.
Qed.

(** X18.  When the destination does not exist and [os.makedirs] fails with
    an [OSError], the session logs the failure and ends normally after the
    calls of size discovery and the two calls about the directory: nothing
    is fetched and no directory or file is created. *)
Theorem makedirs_failure_ends_session n w w0 e :
  get_content_length REPO_URL session w = (Ok (Some n), w0) ->
  path_exists TEMP_DIR w0 = false ->
  makedirs_error session TEMP_DIR = Some e ->
  isinstance_OSError e = true ->
  download_repo' w
  = (Ok tt,
     log_error ("Failed to create directory: " ++ str_exn e)
       (add_event (Makedirs TEMP_DIR)
          (add_event (PathExists TEMP_DIR) w0))).
Proof.
  intros Hs Hp Hm He. rewrite download_repo_unfold, Hs.
  rewrite (create_temp_dir_unfold TEMP_DIR session w0). cbv zeta.
  rewrite Hp, Hm, He. reflexivity.
Qed.

End Destination.

(* ================================================================== *)
(** ** Further properties: the digesting pass *)

(** X19.  Over an existing directory that has no entry the digesting pass
    returns [True] after the listing alone: it opens no file and logs
    nothing. *)
Theorem digest_pass_on_empty_directory TEMP_DIR w :
  is_dir TEMP_DIR w = true ->
  dir_entries TEMP_DIR w = [] ->
  compute_file_hashes TEMP_DIR w = (Ok true, add_event (Listdir TEMP_DIR) w).
Proof.
  intros Hd He. rewrite compute_file_hashes_unfold by exact Hd.
  now rewrite hash_each_unfold, He.
Qed.


(** X21.  The digesting pass returns [True] exactly when the directory has
    no entry: with an entry, readable or not, its first turn returns
    [False]. *)
Theorem digest_pass_succeeds_iff_empty TEMP_DIR w :
  is_dir TEMP_DIR w = true ->
  (fst (compute_file_hashes TEMP_DIR w) = Ok true
   <-> dir_entries TEMP_DIR w = []).
Proof.
  intro Hd. rewrite compute_file_hashes_unfold by exact Hd.
  rewrite hash_each_unfold.
  destruct (dir_entries TEMP_DIR w) as [|filename rest]; cbn [fst].
  - split; reflexivity.
  - split; discriminate.
Qed.

(** X22.  The digesting pass only reads: whatever the directory holds and
    however the pass ends, the files and the directories are as they were,
    and no record of a digest is added to the log. *)
Theorem digest_pass_only_reads TEMP_DIR w :
  files (snd (compute_file_hashes TEMP_DIR w)) = files w
  /\ dirs (snd (compute_file_hashes TEMP_DIR w)) = dirs w
  /\ infos (snd (compute_file_hashes TEMP_DIR w)) = infos w.
Proof.
  destruct (is_dir TEMP_DIR w) eqn:Hd.
  - rewrite compute_file_hashes_unfold by exact Hd.
    rewrite hash_each_unfold.
    destruct (dir_entries TEMP_DIR w) as [|filename rest]; cbn [snd].
    + repeat split.
    + repeat split.
      unfold infos. cbn [log_error log add_event].
      rewrite flat_map_app. cbn. apply app_nil_r.
  - rewrite (compute_file_hashes_not_dir TEMP_DIR w Hd). repeat split.
Qed.

(** X23.  [download_and_hash_file] reports a file it cannot open by raising
    the [OSError] of [open]: it does not log it (its logger is not used),
    and the only call it makes is the opening. *)
Theorem download_and_hash_file_raises filepath w :
  readable filepath w = false ->
  exists e,
    isinstance_OSError e = true
    /\ download_and_hash_file filepath w
       = (Raise e, add_event (OpenRead filepath) w).
Proof.
  unfold readable. intro Hr. rewrite download_and_hash_file_unfold.
  destruct (find_node filepath (files w)) as [[c| | |]|];
    try discriminate Hr;
    eexists; (split; [ | reflexivity]);
    try reflexivity; apply missing_is_OSError.
Qed.

(* ================================================================== *)
(** ** Further properties: a destination that is not a directory *)

Section DestinationIsAFile.

Variables BLOCK_SIZE NUM_OF_BLOCKS : Z.
Variables REPO_URL TEMP_DIR : string.
Variable session : remote.

Local Abbreviation download_repo' :=
  (download_repo BLOCK_SIZE NUM_OF_BLOCKS REPO_URL TEMP_DIR session).

Lemma string_length_app (a b : string) :
  String.length (a ++ b)%string = (String.length a + String.length b)%nat.
Proof.
  induction a as [|c a IH]; cbn [String.append String.length];
    [reflexivity | now rewrite IH].
Qed.

Lemma artifact_path_longer dir start end_ :
  (String.length dir < String.length (artifact_path dir start end_))%nat.
Proof.
  unfold artifact_path.
  rewrite (os_path_join_relative dir (artifact_name start end_))
    by reflexivity.
  rewrite string_length_app.
  assert (H1 : (String.length dir
                <= String.length (os_path_join dir EmptyString))%nat).
  { unfold os_path_join. cbn [starts_with_slash].
    destruct dir as [|c dir]; [apply Nat.le_refl | ].
    destruct (ends_with_slash (String c dir));
      rewrite !string_length_app; lia. }
  assert (H2 : (0 < String.length (artifact_name start end_))%nat).
  { unfold artifact_name. cbn [String.append String.length]. lia. }
  lia.
Qed.

Lemma artifact_path_not_dir dir start end_ :
  dir <> artifact_path dir start end_.
Proof.
  intro H. pose proof (artifact_path_longer dir start end_) as Hl.
  rewrite <- H in Hl. lia.
Qed.

(** X24.  When the destination path holds a file and not a directory,
    [create_temp_dir] is satisfied by [os.path.exists] and lets the session
    through; the transfer returns [True] all the same, and the listing of
    the digesting pass then raises [NotADirectoryError], which nothing
    catches: the session ends in that exception. *)
Theorem destination_not_a_directory_escapes n w w0 :
  NUM_OF_BLOCKS <> 0 ->
  get_content_length REPO_URL session w = (Ok (Some n), w0) ->
  match node_at TEMP_DIR w0 with
  | Some (Regular _) | Some Denied => true
  | _ => false
  end = true ->
  is_dir TEMP_DIR w0 = false ->
  exn_cls (not_a_directory TEMP_DIR) = NotADirectoryError
  /\ fst (download_repo' w) = Raise (not_a_directory TEMP_DIR).
Proof.
  intros Hn Hs Hf Hd. split; [reflexivity | ].
  assert (Hp : path_exists TEMP_DIR w0 = true).
  { unfold path_exists. unfold node_at in Hf.
    destruct (find_node TEMP_DIR (files w0)) as [[c| | |]|];
      try discriminate Hf; apply orb_true_r. }
  rewrite download_repo_unfold, Hs.
  rewrite (create_temp_dir_unfold TEMP_DIR session w0). cbv zeta.
  rewrite Hp.
  set (w1 := add_event (PathExists TEMP_DIR) w0).
  rewrite (download_chunks_unfold BLOCK_SIZE NUM_OF_BLOCKS REPO_URL TEMP_DIR
             session n w1 Hn).
  destruct (run_tasks_frame BLOCK_SIZE REPO_URL TEMP_DIR session
              (planned_ranges NUM_OF_BLOCKS n) w1) as [Hnode Hdirs].
  pose proof (run_tasks_keeps _ _ subdirs_of
                (map (fun r : Z * Z =>
                        download_chunk BLOCK_SIZE REPO_URL session
                                       (fst r) (snd r) TEMP_DIR)
                     (planned_ranges NUM_OF_BLOCKS n))) as Hsub.
  specialize (Hsub ltac:(apply Forall_forall; intros t Ht;
                         apply in_map_iff in Ht; destruct Ht as [r [<- _]];
                         apply download_chunk_keeps_subdirs) w1).
  specialize (Hnode TEMP_DIR
                (fun r _ => artifact_path_not_dir TEMP_DIR (fst r) (snd r))).
  set (w2 := snd (run_tasks _ w1)) in *.
  assert (Hd2 : is_dir TEMP_DIR w2 = false).
  { rewrite (is_dir_frame TEMP_DIR w1 w2
               (directories_frame w1 w2 Hdirs Hsub)).
    exact Hd. }
  rewrite (compute_file_hashes_not_dir TEMP_DIR w2 Hd2). cbn [fst].
  unfold listdir_error. fold (node_at TEMP_DIR w2). rewrite Hnode.
  change (node_at TEMP_DIR w1) with (node_at TEMP_DIR w0).
  destruct (node_at TEMP_DIR w0) as [[c| | |]|];
    try discriminate Hf; reflexivity.
Qed.

End DestinationIsAFile.

(* ================================================================== *)
(** ** Further properties: the plan and the requests *)

Section PlanFurther.

Variables BLOCK_SIZE NUM_OF_BLOCKS : Z.
Variables REPO_URL TEMP_DIR : string.
Variable session : remote.

Local Abbreviation download_chunks' :=
  (download_chunks BLOCK_SIZE NUM_OF_BLOCKS REPO_URL TEMP_DIR session).

Lemma py_range_length n : List.length (py_range n) = Z.to_nat n.
Proof. unfold py_range. now rewrite length_map, length_seq. Qed.

(** X10.  With a positive number of blocks the transfer sends exactly one
    range request per block, in the order of the indices, for the ranges
    of the plan, whatever the answers are. *)
Theorem download_chunks_one_request_per_block content_length w :
  0 < NUM_OF_BLOCKS ->
  let sent :=
    map (fun r => range_header (fst r) (snd r))
        (planned_ranges NUM_OF_BLOCKS content_length) in
  requested_ranges (trace (snd (download_chunks' content_length w)))
  = requested_ranges (trace w) ++ sent
  /\ List.length sent = Z.to_nat NUM_OF_BLOCKS.
Proof.
  intro Hn. cbv zeta. split.
  - apply download_chunks_requests. lia.
  - unfold planned_ranges. now rewrite !length_map, py_range_length.
Qed.

(** X11.  With no block at all the division by the number of blocks raises
    [ZeroDivisionError] before any task is created and outside of the
    [try]: the exception leaves [download_chunks], and nothing is requested,
    written or logged. *)
Theorem download_chunks_zero_blocks content_length w :
  NUM_OF_BLOCKS = 0 ->
  exists e,
    exn_cls e = ZeroDivisionError
    /\ download_chunks BLOCK_SIZE NUM_OF_BLOCKS REPO_URL TEMP_DIR session
                       content_length w
       = (Raise e, w).
Proof.
  intro Hn. unfold download_chunks, bind, lift, floordiv.
  rewrite Hn. cbn [Z.eqb]. eexists. split; [ | reflexivity]. reflexivity.
Qed.

(** X12.  When the content is shorter than the number of blocks the chunk
    size is zero: the planned range at index 2 runs from 0 to the content
    length, and the range at every other index is the empty range from 0
    to -1. *)
Theorem planned_ranges_of_short_content content_length :
  0 <= content_length < NUM_OF_BLOCKS ->
  planned_ranges NUM_OF_BLOCKS content_length
  = map (fun i => if i =? 2 then (0, content_length) else (0, -1))
        (py_range NUM_OF_BLOCKS).
Proof.
  intro Hc. unfold planned_ranges.
  rewrite Z.div_small by exact Hc.
  apply map_ext. intro i. unfold chunk_bounds. rewrite Z.mul_0_r.
  destruct (i =? 2); reflexivity.
Qed.

End PlanFurther.

(* ================================================================== *)
(** ** The further properties on particular servers and worlds *)


Lemma download_chunk_keeps_partial_body_witness :
  let run := download_chunk 1024 repo_url breaking_server 0 999 "temp"
                            prepared_world in
  fst run = Ok tt
  /\ node_at (artifact_path "temp" 0 999) (snd run)
     = Some (Regular (List.concat [[x50; x4b]%byte]))
  /\ log (snd run)
     = log prepared_world
       ++ [(ERROR,
            ("Failed to download chunk: " ++ str_exn payload_error)%string)].
Proof.
  apply (download_chunk_keeps_partial_body
           1024 repo_url breaking_server 0 999 "temp" prepared_world
           breaking_response [[x50; x4b]%byte] payload_error);
    reflexivity.
Defined.

Lemma download_chunk_request_failure_witness :
  download_chunk 1024 repo_url unreachable_server 0 999 "temp" prepared_world
  = (Ok tt,
     log_error ("Failed to download chunk: " ++ str_exn connection_refused)
       (add_event (Get repo_url [("Range", range_header 0 999)])
                  prepared_world)).
Proof.
  apply (download_chunk_request_failure
           1024 repo_url unreachable_server 0 999 "temp" prepared_world
           connection_refused).
  reflexivity.
Defined.

Lemma download_chunk_unwritable_witness :
  writable (artifact_path "temp" 0 999) empty_world = false
  /\ exists e,
       isinstance_OSError e = true
       /\ download_chunk 1024 repo_url steady_server 0 999 "temp" empty_world
          = (Ok tt,
             log_error ("Failed to download chunk: " ++ str_exn e)
               (add_event (OpenWrite (artifact_path "temp" 0 999))
                  (add_event (Get repo_url [("Range", range_header 0 999)])
                             empty_world))).
Proof.
  split; [reflexivity | ].
  apply (download_chunk_unwritable
           1024 repo_url steady_server 0 999 "temp" empty_world
           (plain_response [] [[x50; x4b]%byte]));
    reflexivity.
Defined.


Lemma download_chunk_artifact_is_listed_witness :
  let w' := snd (download_chunk 1024 repo_url breaking_server 0 999 "temp"
                                prepared_world) in
  exists names,
    fst (os_listdir "temp" w') = Ok names
    /\ In (artifact_name 0 999) names.
Proof.
  apply (download_chunk_artifact_is_listed
           1024 repo_url breaking_server 0 999 "temp" prepared_world
           breaking_response);
    reflexivity.
Defined.



Lemma download_chunks_one_request_per_block_witness :
  let sent :=
    map (fun r => range_header (fst r) (snd r)) (planned_ranges 3 3000) in
  requested_ranges
    (trace (snd (download_chunks 1024 3 repo_url "temp" flaky_server 3000
                                 prepared_world)))
  = requested_ranges (trace prepared_world) ++ sent
  /\ List.length sent = Z.to_nat 3.
Proof.
  apply (download_chunks_one_request_per_block
           1024 3 repo_url "temp" flaky_server 3000 prepared_world).
  lia.
Defined.

Lemma download_chunks_zero_blocks_witness :
  exists e,
    exn_cls e = ZeroDivisionError
    /\ download_chunks 1024 0 repo_url "temp" steady_server 3000
                       prepared_world
       = (Raise e, prepared_world).
Proof.
  apply (download_chunks_zero_blocks
           1024 0 repo_url "temp" steady_server 3000 prepared_world).
  reflexivity.
Defined.

Lemma planned_ranges_of_short_content_witness :
  planned_ranges 3 2 = [ (0, -1); (0, -1); (0, 2) ]
  /\ planned_ranges 3 2
     = map (fun i => if i =? 2 then (0, 2) else (0, -1)) (py_range 3).
Proof.
  split; [reflexivity | ].
  apply (planned_ranges_of_short_content 3 2). lia.
Defined.

Lemma planned_ranges_three_partition_witness :
  List.length (planned_ranges 3 3000) = 3%nat
  /\ pairwise_disjoint (planned_ranges 3 3000)
  /\ covers (planned_ranges 3 3000) 3000.
Proof.
  apply (planned_ranges_three_partition 3000). lia.
Defined.

Lemma get_content_length_reads_header_witness :
  get_content_length repo_url steady_server empty_world
  = (Ok (Some 3000), add_event (Head repo_url) empty_world).
Proof.
  apply (get_content_length_reads_header
           repo_url steady_server
           (plain_response [("Content-Length", "3000")] []) 3000 empty_world);
    reflexivity.
Defined.

Lemma malformed_content_length_escapes_witness :
  py_int (VStr "abc") = Raise (invalid_literal "abc")
  /\ exn_cls (invalid_literal "abc") = ValueError
  /\ download_repo 1024 3 repo_url "temp" garbled_server empty_world
     = (Raise (invalid_literal "abc"), add_event (Head repo_url) empty_world).
Proof.
  split; [reflexivity | ].
  apply (malformed_content_length_escapes
           1024 3 repo_url "temp" garbled_server garbled_response "abc"
           (invalid_literal "abc") empty_world);
    reflexivity.
Defined.

Lemma other_head_errors_escape_witness :
  isinstance_ClientConnectorError payload_error = false
  /\ download_repo 1024 3 repo_url "temp" broken_head_server empty_world
     = (Raise payload_error, add_event (Head repo_url) empty_world).
Proof.
  split; [reflexivity | ].
  apply (other_head_errors_escape
           1024 3 repo_url "temp" broken_head_server payload_error
           empty_world);
    reflexivity.
Defined.

Lemma create_temp_dir_idempotent_witness :
  let w1 := snd (create_temp_dir "temp" steady_server empty_world) in
  path_exists "temp" w1 = true
  /\ create_temp_dir "temp" steady_server w1
     = (Ok true, add_event (PathExists "temp") w1).
Proof.
  apply (create_temp_dir_idempotent "temp" steady_server empty_world).
  reflexivity.
Defined.

Lemma makedirs_failure_ends_session_witness :
  download_repo 1024 3 repo_url "temp" steady_server_read_only_disk
                empty_world
  = (Ok tt,
     log_error ("Failed to create directory: "
                ++ str_exn read_only_file_system)
       (add_event (Makedirs "temp")
          (add_event (PathExists "temp")
             (add_event (Head repo_url) empty_world)))).
Proof.
  apply (makedirs_failure_ends_session
           1024 3 repo_url "temp" steady_server_read_only_disk
           3000 empty_world (add_event (Head repo_url) empty_world)
           read_only_file_system);
    reflexivity.
Defined.

Lemma digest_pass_on_empty_directory_witness :
  compute_file_hashes "temp" prepared_world
  = (Ok true, add_event (Listdir "temp") prepared_world).
Proof.
  apply (digest_pass_on_empty_directory "temp" prepared_world); reflexivity.
Defined.


Lemma digest_pass_succeeds_iff_empty_witness :
  fst (compute_file_hashes "temp" mixed_directory) = Ok true
  <-> dir_entries "temp" mixed_directory = [].
Proof.
  apply (digest_pass_succeeds_iff_empty "temp" mixed_directory). reflexivity.
Defined.

Lemma download_and_hash_file_raises_witness :
  exists e,
    isinstance_OSError e = true
    /\ download_and_hash_file "temp/temp_1000_1999" mixed_directory
       = (Raise e, add_event (OpenRead "temp/temp_1000_1999") mixed_directory).
Proof.
  apply (download_and_hash_file_raises "temp/temp_1000_1999" mixed_directory).
  reflexivity.
Defined.

Lemma destination_not_a_directory_escapes_witness :
  node_at "temp" destination_is_a_file = Some (Regular [])
  /\ is_dir "temp" destination_is_a_file = false
  /\ exn_cls (not_a_directory "temp") = NotADirectoryError
  /\ fst (download_repo 1024 3 repo_url "temp" steady_server
                        destination_is_a_file)
     = Raise (not_a_directory "temp").
Proof.
  split; [reflexivity | split; [reflexivity | ] ].
  apply (destination_not_a_directory_escapes
           1024 3 repo_url "temp" steady_server 3000 destination_is_a_file
           (add_event (Head repo_url) destination_is_a_file));
    try reflexivity.
  discriminate.
Defined.
